(** * NLWeb demo dashboard: contract layer, typed client and query pipeline

    A shallow embedding of the TypeScript sources
    - [shared/schema.ts]  (the Zod schemas: [queryRequestSchema], ...),
    - [client/src/lib/api.ts]  ([ApiError], [apiRequest], [api]),
    - [client/src/components/query-interface.tsx],
    - [client/src/components/configuration-panel.tsx],
    - [client/src/components/schema-data-panel.tsx],
    - [client/src/components/system-logs-panel.tsx],
    - [client/src/pages/demo-agent.tsx],
    followed by the properties of the specification that concern them. *)

From stdpp Require Import gmap list strings sorting pretty.
From Stdlib Require Import QArith.
Close Scope Q_scope.

Set Warnings "-register-all".

(** ** JavaScript values *)

Module JS.

(** A JavaScript string is a sequence of UTF-16 code units. *)
Definition jsstring : Type := list N.

(** An ASCII literal of the source, as a JavaScript string. *)
Definition lit (s : string) : jsstring :=
  (fun a => Ascii.N_of_ascii a) <$> String.list_ascii_of_string s.

(** A JavaScript number: every finite double is a rational; the three
    remaining values are kept apart.  Only comparisons are used below, and
    on finite doubles they agree with the comparisons of the rationals.  A
    decimal literal of the source stands for the rational it spells. *)
Inductive jsnum :=
| Fin (q : Q)
| PosInf
| NegInf
| NaN.

(** [a < b] of JavaScript: false as soon as one side is NaN. *)
Definition num_lt (a b : jsnum) : bool :=
  match a, b with
  | NaN, _ | _, NaN => false
  | Fin x, Fin y => negb (Qle_bool y x)
  | NegInf, NegInf => false
  | NegInf, _ => true
  | _, NegInf => false
  | PosInf, _ => false
  | Fin _, PosInf => true
  end.

(** The values that [JSON.parse] / [response.json()] can produce, and that
    the client builds before [JSON.stringify].  An absent property
    ([undefined]) is [None] in an [option json]. *)
Inductive json :=
| JNull
| JBool (b : bool)
| JNum (n : jsnum)
| JStr (s : jsstring)
| JArr (l : list json)
| JObj (m : gmap (list N) json).

Abbreviation jsobject := (gmap (list N) json).

(** ToBoolean.  [undefined], [null], [false], [0], [NaN] and [""] are falsy. *)
Definition truthy (v : option json) : bool :=
  match v with
  | None | Some JNull => false
  | Some (JBool b) => b
  | Some (JNum (Fin q)) => negb (Qeq_bool q 0)
  | Some (JNum NaN) => false
  | Some (JNum _) => true
  | Some (JStr s) => negb (bool_decide (s = []))
  | Some (JArr _) | Some (JObj _) => true
  end.

(** [a || b]. *)
Definition js_or (a b : option json) : option json :=
  if truthy a then a else b.

(** Property read [v.k] on a value of the [json] family.  Reading a
    property of [null] throws a TypeError; the names read below are not
    defined on the prototypes of primitives and arrays, so only an
    object's own property answers. *)
Inductive read_result :=
| Throws
| Gives (v : option json).

Definition get_prop (v : json) (k : jsstring) : read_result :=
  match v with
  | JNull => Throws
  | JObj m => Gives (m !! k)
  | _ => Gives None
  end.

(** [Array.prototype.join] glue. *)
Fixpoint join (sep : jsstring) (parts : list jsstring) : jsstring :=
  match parts with
  | [] => []
  | [p] => p
  | p :: rest => p ++ sep ++ join sep rest
  end.

(** ToString on a [json] value, as the [Error] constructor applies it to
    its message argument and a template literal to its substitutions.

    The prototype of an object of this family is [Object.prototype].  An
    own property [toString] hides the method of the prototype and is no
    function; [valueOf] is then asked, which is no function either when
    it is an own property and otherwise answers with the object itself:
    the conversion throws a TypeError.  Without an own [toString] the
    object converts to ["[object Object]"].  An array joins the
    conversions of its elements, [null] counting as the empty string, and
    throws when one of them does.

    [converts] tells whether the conversion returns; [ToString] is its
    result, [None] when it throws. *)
Fixpoint converts (v : json) : bool :=
  match v with
  | JArr l => forallb converts l
  | JObj m => negb (bool_decide (is_Some (m !! lit "toString")))
  | _ => true
  end.

(** The same for a value that may be [undefined]: [undefined] is not
    converted by [Error], and converts to ["undefined"] in a template. *)
Definition arg_converts (v : option json) : bool :=
  match v with
  | Some x => converts x
  | None => true
  end.

Section ToString.
(** Number::toString is the engine's shortest round-trip printer. *)
Variable NumberToString : jsnum -> jsstring.

Fixpoint ToString (v : json) : option jsstring :=
  match v with
  | JNull => Some (lit "null")
  | JBool true => Some (lit "true")
  | JBool false => Some (lit "false")
  | JNum n => Some (NumberToString n)
  | JStr s => Some s
  | JArr l =>
      join (lit ",") <$>
        (fix elems (l : list json) : option (list jsstring) :=
           match l with
           | [] => Some []
           | x :: l' =>
               match (match x with JNull => Some [] | _ => ToString x end) with
               | Some p =>
                   match elems l' with
                   | Some ps => Some (p :: ps)
                   | None => None
                   end
               | None => None
               end
           end) l
  | JObj m =>
      if bool_decide (is_Some (m !! lit "toString")) then None
      else Some (lit "[object Object]")
  end.
End ToString.

(** [String.prototype.trim]: WhiteSpace and LineTerminator code units. *)
Definition is_white_space (c : N) : bool :=
  ((9 <=? c) && (c <=? 13) || (c =? 32) || (c =? 160) || (c =? 0x1680)
   || (0x2000 <=? c) && (c <=? 0x200A)
   || (c =? 0x2028) || (c =? 0x2029) || (c =? 0x202F) || (c =? 0x205F)
   || (c =? 0x3000) || (c =? 0xFEFF))%N.

Fixpoint trimStart (s : jsstring) : jsstring :=
  match s with
  | c :: s' => if is_white_space c then trimStart s' else s
  | [] => []
  end.

Definition trimEnd (s : jsstring) : jsstring := rev (trimStart (rev s)).

Definition trim (s : jsstring) : jsstring := trimEnd (trimStart s).

(** [!s] for a string. *)
Definition is_empty (s : jsstring) : bool := bool_decide (s = []).

(** [new URL(s)] is given no base: the URL parser strips leading and
    trailing C0 controls and spaces, removes tabs and newlines, and then
    fails unless the input starts with a scheme, that is an ASCII letter,
    then letters, digits, [+], [-] or [.], then a colon.  [has_scheme] is
    that first requirement; what follows the colon can still make the
    parser fail. *)
Definition is_c0_or_space (c : N) : bool := (c <=? 0x20)%N.

Definition is_tab_or_newline (c : N) : bool :=
  ((c =? 9) || (c =? 10) || (c =? 13))%N.

Definition is_ascii_alpha (c : N) : bool :=
  ((0x41 <=? c) && (c <=? 0x5A) || (0x61 <=? c) && (c <=? 0x7A))%N.

Definition is_scheme_unit (c : N) : bool :=
  (is_ascii_alpha c || (0x30 <=? c) && (c <=? 0x39)
   || (c =? 0x2B) || (c =? 0x2D) || (c =? 0x2E))%N.

Fixpoint scheme_ends (s : jsstring) : bool :=
  match s with
  | [] => false
  | c :: s' =>
      if (c =? 0x3A)%N then true
      else if is_scheme_unit c then scheme_ends s'
      else false
  end.

Fixpoint strip_start (s : jsstring) : jsstring :=
  match s with
  | c :: s' => if is_c0_or_space c then strip_start s' else s
  | [] => []
  end.

Definition has_scheme (input : jsstring) : bool :=
  let stripped := rev (strip_start (rev (strip_start input))) in
  match filter (fun c => is_tab_or_newline c = false) stripped with
  | c :: s' => is_ascii_alpha c && scheme_ends s'
  | [] => false
  end.

(** [String.prototype.includes]: [t] occurs in [s] as a run of code
    units. *)
Fixpoint startsWith (s t : jsstring) : bool :=
  match t, s with
  | [], _ => true
  | c :: t', d :: s' => (c =? d)%N && startsWith s' t'
  | _ :: _, [] => false
  end.

Fixpoint includes (s t : jsstring) : bool :=
  startsWith s t
  || match s with
     | [] => false
     | _ :: s' => includes s' t
     end.

(** What [toLowerCase] does to the code units of ASCII: the letters [A]
    to [Z] move to [a] to [z], the others stay. *)
Definition ascii_lower (c : N) : N :=
  if ((0x41 <=? c) && (c <=? 0x5A))%N then (c + 32)%N else c.

Definition is_ascii (s : jsstring) : Prop := Forall (fun c => (c < 128)%N) s.

(** Object spread [{ ...v }]: the own enumerable properties of [v].  An
    object gives its properties, an array and a string give their
    elements under their indices, every other value gives nothing. *)
Definition index_key (i : nat) : jsstring := lit (pretty i).

Definition spread (v : option json) : jsobject :=
  match v with
  | Some (JObj m) => m
  | Some (JArr l) => list_to_map (imap (fun i x => (index_key i, x)) l)
  | Some (JStr s) => list_to_map (imap (fun i c => (index_key i, JStr [c])) s)
  | _ => ∅
  end.

End JS.

(** ** The Zod combinators used by [shared/schema.ts] *)

Module Zod.
Import JS.

(** The issue codes the schemas below can raise. *)
Inductive issue :=
| invalid_type
| invalid_literal
| invalid_enum_value
| invalid_string
| too_small
| too_big
| unrecognized_keys.

(** Result of [schema.safeParse]: the parsed output, or the issues of the
    [ZodError], of which there is at least one.  [parse] throws exactly
    when [safeParse] answers [INVALID]. *)
Inductive parsed :=
| OK (out : option json)
| INVALID (first : issue) (others : list issue).

(** A schema reads a value that may be [undefined]. *)
Definition ZodType : Type := option json -> parsed.

Definition issues_of (p : parsed) : list issue :=
  match p with
  | OK _ => []
  | INVALID i l => i :: l
  end.

Definition success (p : parsed) : bool :=
  match p with
  | OK _ => true
  | INVALID _ _ => false
  end.

(** Every check of a schema runs; the parse succeeds when none complains. *)
Definition conclude (out : option json) (l : list issue) : parsed :=
  match l with
  | [] => OK out
  | i :: l' => INVALID i l'
  end.

(** [z.string()]; its checks [.min(n)] and [.url()] each report their
    issue, and all of them run. *)
Definition string_check : Type := jsstring -> list issue.

Definition str_min (n : nat) : string_check := fun s =>
  if (length s <? n)%nat then [too_small] else [].

(** [.url()] asks the platform: [new URL(s)] must not throw. *)
Definition str_url (URL_parses : jsstring -> bool) : string_check := fun s =>
  if URL_parses s then [] else [invalid_string].

Definition z_string (checks : list string_check) : ZodType := fun input =>
  match input with
  | Some (JStr s) => conclude (Some (JStr s)) (checks ≫= (fun c => c s))
  | _ => INVALID invalid_type []
  end.

(** [z.number()] with its checks [.min(lo)] and [.max(hi)], both inclusive.
    NaN is not of type number for Zod. *)
Definition number_check : Type := jsnum -> list issue.

Definition num_min (lo : jsnum) : number_check := fun n =>
  if num_lt n lo then [too_small] else [].

Definition num_max (hi : jsnum) : number_check := fun n =>
  if num_lt hi n then [too_big] else [].

Definition z_number (checks : list number_check) : ZodType := fun input =>
  match input with
  | Some (JNum NaN) => INVALID invalid_type []
  | Some (JNum n) => conclude (Some (JNum n)) (checks ≫= (fun c => c n))
  | _ => INVALID invalid_type []
  end.

Definition z_boolean : ZodType := fun input =>
  match input with
  | Some (JBool b) => OK (Some (JBool b))
  | _ => INVALID invalid_type []
  end.

Definition z_any : ZodType := fun input => OK input.

(** [z.enum([...])]. *)
Definition z_enum (values : list jsstring) : ZodType := fun input =>
  match input with
  | Some (JStr s) =>
      if bool_decide (s ∈ values) then OK (Some (JStr s))
      else INVALID invalid_enum_value []
  | _ => INVALID invalid_type []
  end.

(** [z.literal("...")]: strict equality with the string literal. *)
Definition z_literal (value : jsstring) : ZodType := fun input =>
  match input with
  | Some (JStr s) =>
      if bool_decide (s = value) then OK (Some (JStr s))
      else INVALID invalid_literal []
  | _ => INVALID invalid_literal []
  end.

(** [.optional()]. *)
Definition z_optional (t : ZodType) : ZodType := fun input =>
  match input with
  | None => OK None
  | Some _ => t input
  end.

(** [.default(d)]: [undefined] is replaced by [d] before the inner parse. *)
Definition z_default (t : ZodType) (d : json) : ZodType := fun input =>
  match input with
  | None => t (Some d)
  | Some _ => t input
  end.

(** [z.array(t)]: every element is parsed. *)
Definition z_array (t : ZodType) : ZodType := fun input =>
  match input with
  | Some (JArr l) =>
      let rs := (fun x => t (Some x)) <$> l in
      conclude (Some (JArr (omap (fun r => match r with OK (Some y) => Some y | _ => None end) rs)))
               (rs ≫= issues_of)
  | _ => INVALID invalid_type []
  end.

(** What [z.object] does with the keys its shape does not name:
    [strip] is the default, [.passthrough()] and [.strict()] change it. *)
Inductive unknown_keys :=
| strip
| passthrough
| strict.

Definition shape : Type := list (jsstring * ZodType).

Definition shape_keys (sh : shape) : list jsstring := fst <$> sh.

(** The parse of every shape key, in shape order, on the property of the
    input of that name.  No shape below names a property of
    [Object.prototype], so only an own property of the input answers. *)
Definition parse_fields (sh : shape) (data : jsobject) : list (jsstring * parsed) :=
  (fun '(k, t) => (k, t (data !! k))) <$> sh.

(** The output properties of the shape keys: a key whose parse is
    [undefined] is left out. *)
Definition known_output (fields : list (jsstring * parsed)) : jsobject :=
  list_to_map (omap (fun '(k, r) =>
                 match r with
                 | OK (Some v) => Some (k, v)
                 | _ => None
                 end) fields).

(** The properties of the input that the shape does not name. *)
Definition extra_keys (sh : shape) (data : jsobject) : jsobject :=
  filter (fun kv => kv.1 ∉ shape_keys sh) data.

(** [ParseStatus.mergeObjectSync] builds the output object from the
    parsed pairs, and skips a pair whose key is ["__proto__"]. *)
Definition mergeObject (pairs : jsobject) : jsobject :=
  delete (lit "__proto__") pairs.

Definition z_object (sh : shape) (mode : unknown_keys) : ZodType := fun input =>
  match input with
  | Some (JObj data) =>
      let fields := parse_fields sh data in
      let extras := extra_keys sh data in
      let out :=
        mergeObject
          match mode with
          | passthrough => known_output fields ∪ extras
          | _ => known_output fields
          end in
      let unknown :=
        match mode with
        | strict => if bool_decide (extras = ∅) then [] else [unrecognized_keys]
        | _ => []
        end in
      conclude (Some (JObj out)) ((fields ≫= (fun kr => issues_of kr.2)) ++ unknown)
  | _ => INVALID invalid_type []
  end.

(** [.nullable()]. *)
Definition z_nullable (t : ZodType) : ZodType := fun input =>
  match input with
  | Some JNull => OK (Some JNull)
  | _ => t input
  end.

(** [z.record(t)]: an object, every value of which is parsed by [t].
    The keys of an object are kept without their order here, and so are
    the issues of its values. *)
Definition z_record (t : ZodType) : ZodType := fun input =>
  match input with
  | Some (JObj data) =>
      let rs : gmap (list N) parsed := (fun v => t (Some v)) <$> data in
      conclude
        (Some (JObj (mergeObject
                       (omap (fun r => match r with
                                       | OK (Some y) => Some y
                                       | _ => None
                                       end) rs))))
        (map_to_list rs ≫= (fun kr => issues_of kr.2))
  | _ => INVALID invalid_type []
  end.

(** A schema is idempotent when what it returns parses again, to
    itself; it is preserving when it returns its input. *)
Definition idempotent (t : ZodType) : Prop :=
  ∀ input out, t input = OK out → t out = OK out.

Definition preserving (t : ZodType) : Prop :=
  ∀ input out, t input = OK out → out = input.

(** A schema is defined when it never returns [undefined] for an input
    that is not [undefined]. *)
Definition defined (t : ZodType) : Prop :=
  ∀ v out, t (Some v) = OK out → is_Some out.

End Zod.

(** ** [shared/schema.ts] *)

Module Schema.
Import JS Zod.

Definition int (z : Z) : jsnum := Fin (inject_Z z).

(** Query Request Schema *)
Definition queryRequestSchema : ZodType :=
  z_object
    [ (lit "query", z_string [str_min 1]);
      (lit "mode", z_default (z_enum [lit "search"; lit "chat"]) (JStr (lit "search")));
      (lit "prev", z_optional (z_string [])) ]
    strip.

(** [type QueryRequest]: the values of that TypeScript type, with [mode]
    still optional as on the input side of the schema, and the JSON value
    each of them is. *)
Inductive Mode :=
| search
| chat.

Definition mode_name (m : Mode) : jsstring :=
  match m with
  | search => lit "search"
  | chat => lit "chat"
  end.

Record QueryRequest := {
  qr_query : jsstring;
  qr_mode : option Mode;
  qr_prev : option jsstring;
}.

Definition set_optional (k : jsstring) (v : option json) (m : jsobject) : jsobject :=
  match v with
  | Some x => <[ k := x ]> m
  | None => m
  end.

Definition QueryRequest_json (r : QueryRequest) : json :=
  JObj (<[ lit "query" := JStr (qr_query r) ]>
          (set_optional (lit "mode") (JStr ∘ mode_name <$> qr_mode r)
             (set_optional (lit "prev") (JStr <$> qr_prev r) ∅))).

(** Configuration Schemas *)
Definition openaiConfigSchema : ZodType :=
  z_object
    [ (lit "model", z_default (z_string []) (JStr (lit "gpt-4")));
      (lit "temperature",
        z_default (z_number [num_min (int 0); num_max (int 1)]) (JNum (Fin (7 # 10))));
      (lit "max_tokens",
        z_default (z_number [num_min (int 1); num_max (int 4000)]) (JNum (int 2048)));
      (lit "has_api_key", z_boolean) ]
    strip.

Definition nlwebConfigSchema : ZodType :=
  z_object
    [ (lit "server_host", z_default (z_string []) (JStr (lit "0.0.0.0")));
      (lit "server_port", z_default (z_number []) (JNum (int 5000)));
      (lit "vector_db", z_default (z_string []) (JStr (lit "memory")));
      (lit "embedding_model",
        z_default (z_string []) (JStr (lit "text-embedding-ada-002")));
      (lit "mcp_enabled", z_default z_boolean (JBool true)) ]
    strip.

Definition errorHandlingConfigSchema : ZodType :=
  z_object
    [ (lit "retry_attempts",
        z_default (z_number [num_min (int 1); num_max (int 10)]) (JNum (int 3)));
      (lit "timeout",
        z_default (z_number [num_min (int 5); num_max (int 120)]) (JNum (int 30)));
      (lit "backoff_strategy",
        z_default (z_enum [lit "exponential"; lit "linear"; lit "fixed"])
                (JStr (lit "exponential")));
      (lit "enable_fallback", z_default z_boolean (JBool true)) ]
    strip.

Definition configSchema : ZodType :=
  z_object
    [ (lit "openai", openaiConfigSchema);
      (lit "nlweb", nlwebConfigSchema);
      (lit "error_handling", errorHandlingConfigSchema) ]
    strip.

(** [type OpenAIConfig] and [type ErrorHandlingConfig]: the values of
    the two TypeScript types with ranged numbers, and the JSON value each
    of them is. *)
Record OpenAIConfig := {
  oc_model : jsstring;
  oc_temperature : jsnum;
  oc_max_tokens : jsnum;
  oc_has_api_key : bool;
}.

Definition OpenAIConfig_json (c : OpenAIConfig) : json :=
  JObj {[ lit "model" := JStr (oc_model c);
          lit "temperature" := JNum (oc_temperature c);
          lit "max_tokens" := JNum (oc_max_tokens c);
          lit "has_api_key" := JBool (oc_has_api_key c) ]}.

Inductive Backoff :=
| exponential
| linear
| fixed.

Definition backoff_name (b : Backoff) : jsstring :=
  match b with
  | exponential => lit "exponential"
  | linear => lit "linear"
  | fixed => lit "fixed"
  end.

Record ErrorHandlingConfig := {
  eh_retry_attempts : jsnum;
  eh_timeout : jsnum;
  eh_backoff_strategy : Backoff;
  eh_enable_fallback : bool;
}.

Definition ErrorHandlingConfig_json (c : ErrorHandlingConfig) : json :=
  JObj {[ lit "retry_attempts" := JNum (eh_retry_attempts c);
          lit "timeout" := JNum (eh_timeout c);
          lit "backoff_strategy" := JStr (backoff_name (eh_backoff_strategy c));
          lit "enable_fallback" := JBool (eh_enable_fallback c) ]}.

(** Data Source Schema *)
Definition dataSourceSchema (URL_parses : jsstring -> bool) : ZodType :=
  z_object
    [ (lit "name", z_string []);
      (lit "url", z_string [str_url URL_parses]);
      (lit "type", z_enum [lit "schema_org"; lit "rss"]);
      (lit "description", z_optional (z_string []));
      (lit "status",
        z_default (z_enum [lit "active"; lit "inactive"; lit "syncing"; lit "error"])
                (JStr (lit "inactive")));
      (lit "object_count", z_default (z_number []) (JNum (int 0)));
      (lit "last_updated", z_optional (z_number []));
      (lit "error", z_optional (z_string [])) ]
    strip.

(** Schema.org Object Schema: [.passthrough()] allows additional properties. *)
Definition schemaOrgObjectSchema : ZodType :=
  z_object
    [ (lit "@type", z_string []);
      (lit "@context", z_optional (z_string []));
      (lit "name", z_optional (z_string []));
      (lit "description", z_optional (z_string []));
      (lit "url", z_optional (z_string []));
      (lit "address", z_optional z_any);
      (lit "aggregateRating", z_optional z_any);
      (lit "priceRange", z_optional (z_string []));
      (lit "servesCuisine", z_optional (z_string []));
      (lit "amenityFeature", z_optional (z_array z_any)) ]
    passthrough.

(** Search Response Schema *)
Definition searchResponseSchema : ZodType :=
  z_object
    [ (lit "@context", z_optional (z_string []));
      (lit "@type", z_literal (lit "SearchResultsPage"));
      (lit "mainEntity", z_array schemaOrgObjectSchema);
      (lit "query", z_string []);
      (lit "numberOfItems", z_number []);
      (lit "processingTime", z_number []);
      (lit "source", z_optional (z_string []));
      (lit "aiResponse", z_optional (z_string []));
      (lit "usage",
        z_optional (z_object
          [ (lit "prompt_tokens", z_optional (z_number []));
            (lit "completion_tokens", z_optional (z_number []));
            (lit "total_tokens", z_optional (z_number [])) ]
          strip));
      (lit "context", z_optional (z_string []));
      (lit "message", z_optional (z_string [])) ]
    strip.

(** The numeric ranges of the configuration: [n] is a number of the
    closed interval from [lo] to [hi]. *)
Definition in_range (lo hi : Z) (n : jsnum) : Prop :=
  ∃ q, n = Fin q ∧ (inject_Z lo <= q <= inject_Z hi)%Q.

(** Schema [S] enforces the range on its numeric field [k]: an object
    whose [k] is a number outside the range fails, and an object whose [k]
    is a number inside it parses whenever the object parses without [k],
    with that very number under [k] in the output. *)
Definition range_enforced (S : ZodType) (k : jsstring) (lo hi : Z) : Prop :=
  ∀ (m : jsobject) (n : jsnum),
    (success (S (Some (JObj (<[ k := JNum n ]> m)))) = true → in_range lo hi n)
    ∧ (in_range lo hi n →
       success (S (Some (JObj (delete k m)))) = true →
       ∃ out, S (Some (JObj (<[ k := JNum n ]> m))) = OK (Some (JObj out))
              ∧ out !! k = Some (JNum n)).

(** Log Entry Schema *)
Definition logEntrySchema : ZodType :=
  z_object
    [ (lit "timestamp", z_string []);
      (lit "level", z_enum [lit "ERROR"; lit "WARN"; lit "INFO"; lit "DEBUG"]);
      (lit "source", z_string []);
      (lit "message", z_string []) ]
    strip.

(** Statistics Schema *)
Definition statsSchema (URL_parses : jsstring -> bool) : ZodType :=
  z_object
    [ (lit "total_sites", z_number []);
      (lit "schema_objects", z_number []);
      (lit "last_sync", z_nullable (z_number []));
      (lit "success_rate", z_number []);
      (lit "data_sources", z_array (dataSourceSchema URL_parses));
      (lit "vector_store",
        z_object
          [ (lit "total_documents", z_number []);
            (lit "total_embeddings", z_number []);
            (lit "indexed_count", z_number []);
            (lit "document_types", z_record (z_number []));
            (lit "embedding_dimension", z_number []) ]
          strip) ]
    strip.

(** Health Check Schema *)
Definition healthResponseSchema : ZodType :=
  z_object
    [ (lit "status", z_enum [lit "healthy"; lit "unhealthy"]);
      (lit "timestamp", z_number []);
      (lit "services",
        z_optional (z_object
          [ (lit "nlweb_server", z_string []);
            (lit "openai_api", z_string []);
            (lit "vector_store", z_string []);
            (lit "mcp_server", z_string []) ]
          strip));
      (lit "stats", z_optional z_any);
      (lit "error", z_optional (z_string [])) ]
    strip.

End Schema.

(** ** [client/src/lib/api.ts] *)

Module ApiClient.
Import JS.

Definition API_BASE : jsstring := lit "/api".

(** What a promise of the client can reject with.  [ApiError] keeps the two
    arguments of its constructor; [error_message] below is the [message]
    property that [super(message)] derives from the second one. *)
Inductive thrown :=
| ApiError (status : Z) (message : option json)
| TypeError
| SyntaxError.

(** [new ApiError(status, message)].  [super(message)] converts a message
    that is not [undefined] to a string; when that conversion throws, the
    [new] expression throws its TypeError and no [ApiError] comes to be. *)
Definition new_ApiError (status : Z) (message : option json) : thrown :=
  if arg_converts message then ApiError status message else TypeError.

(** [Error]'s constructor stores ToString of a message that is not
    [undefined]; otherwise [message] is the empty string of the prototype.
    An [ApiError] exists only for a message whose conversion returned.
    The wording of the engine's own errors is the engine's. *)
Definition error_message (NumberToString : jsnum -> jsstring)
    (engine_text : jsstring) (e : thrown) : jsstring :=
  match e with
  | ApiError _ (Some m) => default [] (ToString NumberToString m)
  | ApiError _ None => []
  | TypeError | SyntaxError => engine_text
  end.

Inductive outcome (A : Type) :=
| Resolved (a : A)
| Rejected (e : thrown).
Arguments Resolved {A} a.
Arguments Rejected {A} e.

(** The part of a fetch [Response] that [apiRequest] reads.  [json_body] is the
    result of [response.json()]: [None] when the body is not JSON text, in
    which case that promise rejects with a SyntaxError. *)
Record Response := {
  status : Z;
  statusText : jsstring;
  json_body : option JS.json;
}.

(** [response.ok]: the status is in the range 200-299. *)
Definition ok (r : Response) : bool :=
  ((200 <=? status r) && (status r <=? 299))%Z.

(** [await fetch(...)] either rejects (network failure) or gives a response. *)
Inductive fetch_result :=
| FetchRejects (e : thrown)
| FetchResolves (r : Response).

(** The [RequestInit] fields the client sets.  [body] is the value handed
    to [JSON.stringify]; the text sent is its serialisation. *)
Record RequestInit := {
  method : option jsstring;
  headers : option (gmap (list N) jsstring);
  body : option JS.json;
}.

Definition no_options : RequestInit :=
  {| method := None; headers := None; body := None |}.

(** The network request that reaches [fetch]. *)
Record Request := {
  req_url : jsstring;
  req_method : jsstring;
  req_headers : gmap (list N) jsstring;
  req_body : option JS.json;
}.

(** An async call of the client: the one request it issues at
    [await fetch(...)], and how it continues on the result. *)
Record call := {
  fetch : Request;
  resume : fetch_result -> outcome JS.json;
}.

Definition apiRequest (endpoint : jsstring) (options : RequestInit) : call :=
  {| fetch :=
       {| req_url := API_BASE ++ endpoint;
          req_method := default (lit "GET") (method options);
          (* [...options] comes last in the literal: a [headers] property
             of the options replaces the merged one. *)
          req_headers :=
            default {[ lit "Content-Type" := lit "application/json" ]}
                    (headers options);
          req_body := body options |};
     resume := fun result =>
       match result with
       | FetchRejects e => Rejected e
       | FetchResolves response =>
           if negb (ok response) then
             let error :=
               match json_body response with
               | Some v => v
               | None => JObj {[ lit "error" := JStr (statusText response) ]}
               end in
             match get_prop error (lit "error"), get_prop error (lit "message") with
             | Gives e, Gives m =>
                 Rejected (new_ApiError (status response)
                             (js_or (js_or e m) (Some (JStr (lit "API request failed")))))
             | _, _ => Rejected TypeError
             end
           else
             match json_body response with
             | Some v => Resolved v
             | None => Rejected SyntaxError
             end
       end |}.

(** The members of the [api] object used by the three panels. *)
Module api.

Definition ask (request : JS.json) : call :=
  apiRequest (lit "/ask")
    {| method := Some (lit "POST"); headers := None; body := Some request |}.

Definition getConfig : call :=
  apiRequest (lit "/config") no_options.

Definition updateConfig (config : JS.json) : call :=
  apiRequest (lit "/config")
    {| method := Some (lit "POST"); headers := None; body := Some config |}.

Definition addDataSource (source : JS.json) : call :=
  apiRequest (lit "/data-sources")
    {| method := Some (lit "POST"); headers := None; body := Some source |}.

Definition mcp (request : JS.json) : call :=
  apiRequest (lit "/mcp")
    {| method := Some (lit "POST"); headers := None; body := Some request |}.

Definition getStats : call :=
  apiRequest (lit "/data-sources") no_options.

Definition getLogs : call :=
  apiRequest (lit "/logs") no_options.

Definition getHealth : call :=
  apiRequest (lit "/health") no_options.

Definition testEndpoint (testRequest : JS.json) : call :=
  apiRequest (lit "/test")
    {| method := Some (lit "POST"); headers := None; body := Some testRequest |}.

End api.

(** The nine members of [api], each with the argument it is given. *)
Inductive capability :=
| Ask (request : JS.json)
| Mcp (request : JS.json)
| GetConfig
| UpdateConfig (config : JS.json)
| GetStats
| AddDataSource (source : JS.json)
| GetLogs
| GetHealth
| TestEndpoint (testRequest : JS.json).

Definition perform (c : capability) : call :=
  match c with
  | Ask request => api.ask request
  | Mcp request => api.mcp request
  | GetConfig => api.getConfig
  | UpdateConfig config => api.updateConfig config
  | GetStats => api.getStats
  | AddDataSource source => api.addDataSource source
  | GetLogs => api.getLogs
  | GetHealth => api.getHealth
  | TestEndpoint testRequest => api.testEndpoint testRequest
  end.

(** The argument a member of [api] serialises into its request. *)
Definition argument (c : capability) : option JS.json :=
  match c with
  | Ask v | Mcp v | UpdateConfig v | AddDataSource v | TestEndpoint v => Some v
  | GetConfig | GetStats | GetLogs | GetHealth => None
  end.

End ApiClient.

(** ** [client/src/components/query-interface.tsx] *)

Module QueryInterface.
Import JS ApiClient.

(** The three toasts of the component, with the values their
    descriptions are built from. *)
Inductive toast :=
| QueryRequired
| QuerySuccessful (numberOfItems processingTime : option JS.json)
| QueryFailed (error : thrown).

(** Status of the mutation that [useMutation] observes. *)
Inductive mutation_status :=
| idle
| pending
| success
| error.

(** The component's two [useState] cells, the toasts shown so far, and the
    mutation bookkeeping of [useMutation]: the cache numbers the mutations,
    the observer follows the one started last, and [inflight] holds the
    mutations whose [api.ask] promise has not settled yet, with the
    variables they were started with. *)
Record state := {
  query : jsstring;
  results : JS.json;
  toasts : list toast;
  mutationId : nat;
  current : option nat;
  status : mutation_status;
  inflight : list (nat * JS.json);
}.

Definition initial : state :=
  {| query := []; results := JNull; toasts := [];
     mutationId := 0; current := None; status := idle; inflight := [] |}.

Definition setQuery (q : jsstring) (s : state) : state :=
  {| query := q; results := results s; toasts := toasts s;
     mutationId := mutationId s; current := current s; status := status s;
     inflight := inflight s |}.

Definition setResults (r : JS.json) (s : state) : state :=
  {| query := query s; results := r; toasts := toasts s;
     mutationId := mutationId s; current := current s; status := status s;
     inflight := inflight s |}.

Definition show (t : toast) (s : state) : state :=
  {| query := query s; results := results s; toasts := toasts s ++ [t];
     mutationId := mutationId s; current := current s; status := status s;
     inflight := inflight s |}.

(** [queryMutation.isPending] *)
Definition isPending (s : state) : bool :=
  match status s with
  | pending => true
  | _ => false
  end.

(** [queryMutation.mutate(request)]: a new mutation becomes the observed
    one, its status is pending, and [mutationFn] issues [api.ask(request)]. *)
Definition mutate (request : JS.json) (s : state) : state :=
  {| query := query s; results := results s; toasts := toasts s;
     mutationId := S (mutationId s); current := Some (mutationId s);
     status := pending;
     inflight := inflight s ++ [(mutationId s, request)] |}.

Definition handleSubmit (s : state) : state :=
  if is_empty (trim (query s)) then show QueryRequired s
  else
    mutate (JObj {[ lit "query" := JStr (trim (query s));
                    lit "mode" := JStr (lit "search") ]}) s.

(** [onSuccess]: [setResults(data)], then the toast, whose description is
    a template literal over two properties of [data].  Reading them throws
    when [data] is [null], and converting what was read to a string throws
    when [converts] says so; either way it is a TypeError, and no toast. *)
Definition onSuccess (data : JS.json) (s : state) : state * option thrown :=
  let s' := setResults data s in
  match get_prop data (lit "numberOfItems"), get_prop data (lit "processingTime") with
  | Gives n, Gives t =>
      if arg_converts n && arg_converts t then (show (QuerySuccessful n t) s', None)
      else (s', Some TypeError)
  | _, _ => (s', Some TypeError)
  end.

Definition onError (e : thrown) (s : state) : state := show (QueryFailed e) s.

(** Mutation [id] is over; the observer reports the status of the
    mutation it follows only. *)
Definition finish (id : nat) (st : mutation_status) (s : state) : state :=
  {| query := query s; results := results s; toasts := toasts s;
     mutationId := mutationId s; current := current s;
     status := if bool_decide (current s = Some id) then st else status s;
     inflight := filter (fun ir => ir.1 ≠ id) (inflight s) |}.

(** The fetch of mutation [id] completes: [api.ask] continues on its
    result, and the mutation runs [onSuccess] or [onError]; an [onSuccess]
    that throws turns the mutation into a failed one. *)
Definition settle (id : nat) (result : fetch_result) (s : state) : state :=
  match list_find (fun ir => ir.1 = id) (inflight s) with
  | None => s
  | Some (_, (_, request)) =>
      match resume (api.ask request) result with
      | Resolved data =>
          match onSuccess data s with
          | (s', None) => finish id success s'
          | (s', Some e) => finish id error (onError e s')
          end
      | Rejected e => finish id error (onError e s)
      end
  end.

(** What can happen to the component: the textarea, the clear button or an
    example button sets the query; the submit button is clicked; a fetch
    completes. *)
Inductive event :=
| Input (text : jsstring)
| Click
| Fetched (id : nat) (result : fetch_result).

(** The submit button is [disabled={queryMutation.isPending}]: a click on
    it while a mutation is pending does not reach [handleSubmit]. *)
Definition step (s : state) (e : event) : state :=
  match e with
  | Input text => setQuery text s
  | Click => if isPending s then s else handleSubmit s
  | Fetched id result => settle id result s
  end.

Definition run (s : state) (es : list event) : state := foldl step s es.

(** The results panel: [results && !queryMutation.isPending && (...)]. *)
Definition displayed (s : state) : option JS.json :=
  if truthy (Some (results s)) && negb (isPending s) then Some (results s)
  else None.

(** The requests of the mutations in flight. *)
Definition requests_in_flight (s : state) : list Request :=
  (fun ir => fetch (api.ask ir.2)) <$> inflight s.

(** The mutations whose response arrives in the course of the events
    [es], starting in state [s], in the order of arrival.  The cache
    numbers the mutations in the order of submission. *)
Fixpoint arrivals (s : state) (es : list event) : list nat :=
  match es with
  | [] => []
  | e :: es' =>
      match e with
      | Fetched id _ =>
          match list_find (fun ir => ir.1 = id) (inflight s) with
          | Some _ => id :: arrivals (step s e) es'
          | None => arrivals (step s e) es'
          end
      | _ => arrivals (step s e) es'
      end
  end.


(** Requests are issued one at a time: nothing is in flight unless the
    observed mutation is pending, and then the one mutation in flight is
    the observed one, which is the one started last. *)
Definition serial (s : state) : Prop :=
  match inflight s with
  | [] => isPending s = false
  | [(id, _)] => current s = Some id ∧ isPending s = true ∧ mutationId s = S id
  | _ => False
  end.

End QueryInterface.

(** ** [client/src/components/configuration-panel.tsx] *)

Module ConfigurationPanel.
Import JS ApiClient.

(** [keyof Config] *)
Inductive section :=
| openai
| nlweb
| error_handling.

Definition key (s : section) : jsstring :=
  match s with
  | openai => lit "openai"
  | nlweb => lit "nlweb"
  | error_handling => lit "error_handling"
  end.

(** [useState<Config | null>(null)] *)
Record state := {
  config : JS.json;
}.

Definition initial : state := {| config := JNull |}.

(** The effect on [configData]: [if (configData) setConfig(configData)]. *)
Definition useEffect (configData : option JS.json) (s : state) : state :=
  match configData with
  | Some d => if truthy configData then {| config := d |} else s
  | None => s
  end.

(** The object literal [{ [section]: config[section] }] as
    [JSON.stringify] sends it: a property whose value is [undefined] is
    not serialised. *)
Definition update_of (k : jsstring) (v : option JS.json) : jsobject :=
  match v with
  | Some x => {[ k := x ]}
  | None => ∅
  end.

(** [handleSave(section)]: the calls of [api.updateConfig] it starts. *)
Definition handleSave (sec : section) (s : state) : list call :=
  if negb (truthy (Some (config s))) then []
  else
    match get_prop (config s) (key sec) with
    | Gives v => [api.updateConfig (JObj (update_of (key sec) v))]
    | Throws => []
    end.

(** The [onChange] handlers of the form, all of the shape
    [setConfig({ ...config, [section]: { ...config[section], [field]: value } })].
    The form is rendered only once [config] is set. *)
Definition edit (sec : section) (field : jsstring) (value : JS.json) (s : state) : state :=
  if negb (truthy (Some (config s))) then s
  else
    match get_prop (config s) (key sec) with
    | Gives old =>
        {| config :=
             JObj (<[ key sec := JObj (<[ field := value ]> (spread old)) ]>
                     (spread (Some (config s)))) |}
    | Throws => s
    end.

End ConfigurationPanel.

(** ** [client/src/components/schema-data-panel.tsx] *)

Module SchemaDataPanel.
Import JS ApiClient.

(** The [newSource] cell of the add dialog. *)
Record NewSource := {
  name : jsstring;
  url : jsstring;
  type : jsstring;
  description : jsstring;
}.

Definition initial : NewSource :=
  {| name := []; url := []; type := lit "schema_org"; description := [] |}.

(** [JSON.stringify(source)] of the cell. *)
Definition to_json (n : NewSource) : JS.json :=
  JObj {[ lit "name" := JStr (name n);
          lit "url" := JStr (url n);
          lit "type" := JStr (type n);
          lit "description" := JStr (description n) ]}.

Inductive effect :=
| Toast (title : jsstring)
| Mutate (c : call).

(** [handleAddSource]: the guard on the two required fields, then
    [addSourceMutation.mutate(newSource)], whose [mutationFn] is
    [api.addDataSource]. *)
Definition handleAddSource (newSource : NewSource) : effect :=
  if is_empty (name newSource) || is_empty (url newSource)
  then Toast (lit "Required Fields Missing")
  else Mutate (api.addDataSource (to_json newSource)).

(** The network requests an effect issues. *)
Definition network (e : effect) : list Request :=
  match e with
  | Toast _ => []
  | Mutate c => [fetch c]
  end.

(** The toasts of the panel. *)
Inductive notice :=
| RequiredFieldsMissing
| DataSourceAdded
| FailedToAddSource (error : thrown).

(** The panel: its two [useState] cells, the toasts shown, how often the
    ["stats"] query was invalidated, and the call of the pending
    [addSourceMutation] when one is pending. *)
Record panel := {
  showAddDialog : bool;
  newSource : NewSource;
  notices : list notice;
  invalidations : nat;
  adding : option call;
}.

Definition start : panel :=
  {| showAddDialog := false; newSource := initial; notices := [];
     invalidations := 0; adding := None |}.

Definition setShowAddDialog (b : bool) (s : panel) : panel :=
  {| showAddDialog := b; newSource := newSource s; notices := notices s;
     invalidations := invalidations s; adding := adding s |}.

Definition setNewSource (n : NewSource) (s : panel) : panel :=
  {| showAddDialog := showAddDialog s; newSource := n; notices := notices s;
     invalidations := invalidations s; adding := adding s |}.

Definition notify (t : notice) (s : panel) : panel :=
  {| showAddDialog := showAddDialog s; newSource := newSource s;
     notices := notices s ++ [t];
     invalidations := invalidations s; adding := adding s |}.

(** [addSourceMutation.isPending] *)
Definition isPending (s : panel) : bool :=
  match adding s with
  | Some _ => true
  | None => false
  end.

(** [onSuccess] of [addSourceMutation]. *)
Definition onSuccess (s : panel) : panel :=
  {| showAddDialog := false; newSource := initial;
     notices := notices s ++ [DataSourceAdded];
     invalidations := S (invalidations s); adding := None |}.

(** [onError] of [addSourceMutation]. *)
Definition onError (e : thrown) (s : panel) : panel :=
  {| showAddDialog := showAddDialog s; newSource := newSource s;
     notices := notices s ++ [FailedToAddSource e];
     invalidations := invalidations s; adding := None |}.

(** The inputs of the dialog, the dialog opening or closing, the click on
    its button, and the completion of the fetch of the pending add. *)
Inductive event :=
| SetName (v : jsstring)
| SetUrl (v : jsstring)
| SetType (v : jsstring)
| SetDescription (v : jsstring)
| OpenChange (b : bool)
| ClickAdd
| Fetched (result : fetch_result).

(** The button is [disabled={addSourceMutation.isPending}]. *)
Definition step (s : panel) (e : event) : panel :=
  let n := newSource s in
  match e with
  | SetName v =>
      setNewSource {| name := v; url := url n; type := type n;
                      description := description n |} s
  | SetUrl v =>
      setNewSource {| name := name n; url := v; type := type n;
                      description := description n |} s
  | SetType v =>
      setNewSource {| name := name n; url := url n; type := v;
                      description := description n |} s
  | SetDescription v =>
      setNewSource {| name := name n; url := url n; type := type n;
                      description := v |} s
  | OpenChange b => setShowAddDialog b s
  | ClickAdd =>
      if isPending s then s
      else
        match handleAddSource n with
        | Toast _ => notify RequiredFieldsMissing s
        | Mutate c =>
            {| showAddDialog := showAddDialog s; newSource := n;
               notices := notices s; invalidations := invalidations s;
               adding := Some c |}
        end
  | Fetched result =>
      match adding s with
      | None => s
      | Some c =>
          match resume c result with
          | Resolved _ => onSuccess s
          | Rejected e => onError e s
          end
      end
  end.

Definition run (s : panel) (es : list event) : panel := foldl step s es.

(** The events that come from the user, as opposed to the network. *)
Definition is_user (e : event) : bool :=
  match e with
  | Fetched _ => false
  | _ => true
  end.

End SchemaDataPanel.

(** ** [client/src/components/system-logs-panel.tsx] *)

Module SystemLogsPanel.
Import JS.

(** [type LogEntry], as [api.getLogs] declares its entries. *)
Record LogEntry := {
  timestamp : jsstring;
  level : jsstring;
  source : jsstring;
  message : jsstring;
}.

Definition LogEntry_json (l : LogEntry) : JS.json :=
  JObj {[ lit "timestamp" := JStr (timestamp l);
          lit "level" := JStr (level l);
          lit "source" := JStr (source l);
          lit "message" := JStr (message l) ]}.

(** The four [useState] cells of the panel. *)
Record state := {
  levelFilter : jsstring;
  sourceFilter : jsstring;
  searchTerm : jsstring;
  autoRefresh : bool;
}.

Definition initial : state :=
  {| levelFilter := lit "all"; sourceFilter := lit "all"; searchTerm := [];
     autoRefresh := true |}.

(** [refetchInterval: autoRefresh ? 5000 : false] *)
Definition refetchInterval (s : state) : option nat :=
  if autoRefresh s then Some 5000%nat else None.

Section Filter.
(** [String.prototype.toLowerCase] of the engine. *)
Variable toLowerCase : jsstring -> jsstring.

(** The callback of [filter]: the three tests, in the order of the
    source. *)
Definition keeps (s : state) (log : LogEntry) : bool :=
  if negb (bool_decide (levelFilter s = lit "all"))
     && negb (bool_decide (toLowerCase (level log) = toLowerCase (levelFilter s)))
  then false
  else if negb (bool_decide (sourceFilter s = lit "all"))
          && negb (bool_decide (source log = sourceFilter s))
  then false
  else if negb (is_empty (searchTerm s))
          && negb (includes (toLowerCase (message log)) (toLowerCase (searchTerm s)))
  then false
  else true.

(** [logsData?.logs?.filter(...) || []]; [None] is the data not there. *)
Definition filteredLogs (s : state) (logs : option (list LogEntry)) : list LogEntry :=
  match logs with
  | Some l => filter (fun log => keeps s log = true) l
  | None => []
  end.
End Filter.

(** The values of the level select, beside ["all"]. *)
Definition level_options : list jsstring :=
  [lit "error"; lit "warn"; lit "info"; lit "debug"].

End SystemLogsPanel.

(** ** [client/src/pages/demo-agent.tsx] *)

Module DemoAgent.
Import JS.

(** The three services of the sidebar. *)
Inductive service :=
| nlweb_server
| openai_api
| vector_store.

Definition service_key (s : service) : jsstring :=
  match s with
  | nlweb_server => lit "nlweb_server"
  | openai_api => lit "openai_api"
  | vector_store => lit "vector_store"
  end.

Inductive indicator :=
| status_online
| status_offline.

(** [healthData?.x]: [undefined] when [healthData] is [undefined] or
    [null]. *)
Definition optional_prop (v : option JS.json) (k : jsstring) : option JS.json :=
  match v with
  | None | Some JNull => None
  | Some x =>
      match get_prop x k with
      | Gives r => r
      | Throws => None
      end
  end.

Definition getStatusIndicator (healthData : option JS.json) (s : service) : indicator :=
  let services := optional_prop healthData (lit "services") in
  if negb (truthy services) then status_offline
  else
    match optional_prop services (service_key s) with
    | Some (JStr status) =>
        if bool_decide (status = lit "online") then status_online
        else status_offline
    | _ => status_offline
    end.

(** The banner: [healthData?.status === "unhealthy"]. *)
Definition unavailable (healthData : option JS.json) : bool :=
  match optional_prop healthData (lit "status") with
  | Some (JStr status) => bool_decide (status = lit "unhealthy")
  | _ => false
  end.

End DemoAgent.

(** * Properties *)

Import JS Zod Schema ApiClient.

(** A decidable fact about literals of the source, by evaluation. *)
Ltac by_evaluation := apply (bool_decide_unpack _); vm_compute; exact I.

(** The property of an object literal under a literal name. *)
Ltac lookup_literal :=
  repeat first
    [ rewrite lookup_insert_eq
    | rewrite lookup_singleton_eq
    | rewrite lookup_insert_ne by by_evaluation
    | rewrite lookup_singleton_ne by by_evaluation
    | rewrite lookup_empty ].

(** ** Strings *)

Section Strings.

Lemma trimStart_nil_iff (s : jsstring) :
  trimStart s = [] ↔ forallb is_white_space s = true.
Proof.
  induction s as [|c s IH]; simpl; [done|].
  destruct (is_white_space c); simpl; [exact IH|].
  split; discriminate.
Qed.

Lemma trimStart_head (s t : jsstring) (c : N) :
  trimStart s = c :: t → is_white_space c = false.
Proof.
  induction s as [|d s IH]; simpl; [done|].
  destruct (is_white_space d) eqn:Ed; [done|]. congruence.
Qed.

(** [trim] leaves nothing exactly when every code unit is white space. *)
Lemma trim_nil_iff (s : jsstring) :
  trim s = [] ↔ forallb is_white_space s = true.
Proof.
  unfold trim, trimEnd. split.
  - intros H. apply (f_equal (@rev N)) in H. rewrite rev_involutive in H.
    simpl in H. apply trimStart_nil_iff in H.
    destruct (trimStart s) as [|c t] eqn:E; [by apply trimStart_nil_iff|].
    apply trimStart_head in E.
    rewrite forallb_forall in H. rewrite (H c) in E; [done|].
    apply in_rev. rewrite rev_involutive. by left.
  - intros H. apply trimStart_nil_iff in H. by rewrite H.
Qed.

Lemma is_empty_true (s : jsstring) : is_empty s = true ↔ s = [].
Proof. unfold is_empty. by rewrite bool_decide_eq_true. Qed.

Lemma is_empty_false (s : jsstring) : is_empty s = false ↔ s ≠ [].
Proof. unfold is_empty. by rewrite bool_decide_eq_false. Qed.

End Strings.

(** ** The combinators *)

Section Combinators.

Lemma success_issues (p : parsed) : success p = true ↔ issues_of p = [].
Proof. by destruct p. Qed.

Lemma success_conclude (out : option json) (l : list issue) :
  success (conclude out l) = bool_decide (l = []).
Proof. by destruct l. Qed.

Lemma conclude_OK (out o : option json) (l : list issue) :
  conclude out l = OK o → l = [] ∧ o = out.
Proof. destruct l; simpl; [|done]. by intros [= ->]. Qed.

Lemma field_issues_nil (sh : shape) (m : jsobject) :
  parse_fields sh m ≫= (λ kr, issues_of kr.2) = []
  ↔ forallb (λ kt, success (kt.2 (m !! kt.1))) sh = true.
Proof.
  induction sh as [|[k t] sh IH]; [done|].
  change (issues_of (t (m !! k)) ++
            (parse_fields sh m ≫= (λ kr, issues_of kr.2)) = []
          ↔ success (t (m !! k))
            && forallb (λ kt, success (kt.2 (m !! kt.1))) sh = true).
  rewrite andb_true_iff, <- IH, success_issues.
  split.
  - intros H. by apply app_eq_nil in H.
  - intros [-> ->]. done.
Qed.

(** Without [.strict()], an object parses exactly when the property
    under each key of the shape does. *)
Lemma z_object_success (sh : shape) (mode : unknown_keys) (m : jsobject) :
  mode ≠ strict →
  success (z_object sh mode (Some (JObj m)))
  = forallb (λ kt, success (kt.2 (m !! kt.1))) sh.
Proof.
  intros Hmode. unfold z_object. rewrite success_conclude.
  assert (Hu : (match mode with
                | strict => if bool_decide (extra_keys sh m = ∅) then []
                            else [unrecognized_keys]
                | _ => []
                end) = []) by (by destruct mode).
  rewrite Hu, app_nil_r.
  apply eq_true_iff_eq. rewrite bool_decide_eq_true. apply field_issues_nil.
Qed.



Lemma known_output_unknown (sh : shape) (m : jsobject) (k : jsstring) :
  k ∉ shape_keys sh → known_output (parse_fields sh m) !! k = None.
Proof.
  intros Hk. unfold known_output. apply not_elem_of_list_to_map_1.
  intros Hin. apply Hk. clear Hk.
  apply list_elem_of_fmap in Hin as [[k' v] [Hkk' Hin]].
  apply list_elem_of_omap in Hin as [[k'' r] [Hin Hr]].
  destruct r as [[v'|]|]; simplify_eq/=.
  unfold parse_fields in Hin.
  apply list_elem_of_fmap in Hin as [[k0 t] [? Hin]]. simplify_eq.
  unfold shape_keys. apply list_elem_of_fmap. by exists (k0, t).
Qed.

Lemma lookup_mergeObject (pairs : jsobject) (k : jsstring) :
  mergeObject pairs !! k
  = if bool_decide (k = lit "__proto__") then None else pairs !! k.
Proof.
  unfold mergeObject. case_bool_decide as Hk.
  - subst k. apply lookup_delete_eq.
  - by apply lookup_delete_ne.
Qed.

Lemma mergeObject_idemp (pairs : jsobject) :
  mergeObject (mergeObject pairs) = mergeObject pairs.
Proof.
  apply map_eq. intros k. rewrite !lookup_mergeObject. by case_bool_decide.
Qed.

Lemma lookup_extra_keys (sh : shape) (m : jsobject) (k : jsstring) :
  extra_keys sh m !! k = if bool_decide (k ∈ shape_keys sh) then None else m !! k.
Proof.
  unfold extra_keys. case_bool_decide as Hk.
  - apply map_lookup_filter_None. right. intros x _ Hx. by apply Hx.
  - destruct (m !! k) as [v|] eqn:E.
    + by apply map_lookup_filter_Some.
    + apply map_lookup_filter_None. by left.
Qed.

(** [strip] drops every property the shape does not name ... *)
Lemma z_object_strip_unknown (sh : shape) (m out : jsobject) (k : jsstring) :
  z_object sh strip (Some (JObj m)) = OK (Some (JObj out)) →
  k ∉ shape_keys sh → out !! k = None.
Proof.
  unfold z_object. intros H Hk. apply conclude_OK in H as [_ H].
  simplify_eq. rewrite lookup_mergeObject, known_output_unknown by done.
  by case_bool_decide.
Qed.

(** ... and [passthrough] hands it over as it came, unless its name is
    ["__proto__"]. *)
Lemma z_object_passthrough_unknown (sh : shape) (m out : jsobject) (k : jsstring) :
  z_object sh passthrough (Some (JObj m)) = OK (Some (JObj out)) →
  k ∉ shape_keys sh →
  out !! k = if bool_decide (k = lit "__proto__") then None else m !! k.
Proof.
  unfold z_object. intros H Hk. apply conclude_OK in H as [_ H].
  simplify_eq. rewrite lookup_mergeObject. case_bool_decide; [done|].
  rewrite lookup_union, known_output_unknown, lookup_extra_keys by done.
  rewrite (left_id None _). by rewrite bool_decide_eq_false_2.
Qed.

End Combinators.

(** ** The query request *)

Section QueryRequests.

Lemma QueryRequest_json_lookup (r : QueryRequest) :
  ∃ m, QueryRequest_json r = JObj m
       ∧ m !! lit "query" = Some (JStr (qr_query r))
       ∧ m !! lit "mode" = (JStr ∘ mode_name <$> qr_mode r)
       ∧ m !! lit "prev" = (JStr <$> qr_prev r).
Proof.
  eexists. split; [reflexivity|].
  destruct r as [q [md|] [pv|]]; simpl; by repeat split.
Qed.

Lemma queryRequestSchema_success (m : jsobject) :
  success (queryRequestSchema (Some (JObj m)))
  = success (z_string [str_min 1] (m !! lit "query"))
    && (success (z_default (z_enum [lit "search"; lit "chat"])
                   (JStr (lit "search")) (m !! lit "mode"))
    && (success (z_optional (z_string []) (m !! lit "prev")) && true)).
Proof. unfold queryRequestSchema. by rewrite z_object_success. Qed.

Lemma query_field_success (q : jsstring) :
  success (z_string [str_min 1] (Some (JStr q))) = negb (is_empty q).
Proof. by destruct q. Qed.

Lemma queryRequestSchema_typed (r : QueryRequest) :
  success (queryRequestSchema (Some (QueryRequest_json r)))
  = negb (is_empty (qr_query r)).
Proof.
  destruct (QueryRequest_json_lookup r) as (m & -> & Hq & Hm & Hp).
  rewrite queryRequestSchema_success, Hq, Hm, Hp, query_field_success.
  destruct (qr_mode r) as [[]|], (qr_prev r); simpl;
    by rewrite ?andb_true_r.
Qed.

Lemma handleSubmit_cases (s : QueryInterface.state) :
  QueryInterface.handleSubmit s
  = if forallb is_white_space (QueryInterface.query s)
    then QueryInterface.show QueryInterface.QueryRequired s
    else QueryInterface.mutate
           (QueryRequest_json
              {| qr_query := trim (QueryInterface.query s);
                 qr_mode := Some search; qr_prev := None |}) s.
Proof.
  unfold QueryInterface.handleSubmit.
  destruct (forallb is_white_space (QueryInterface.query s)) eqn:E.
  - apply trim_nil_iff in E. by rewrite E.
  - destruct (is_empty (trim (QueryInterface.query s))) eqn:E'; [|done].
    apply is_empty_true, trim_nil_iff in E'. congruence.
Qed.

End QueryRequests.

(** C1, counterexample.  The query [" "] is empty after trimming, yet
    [queryRequestSchema] accepts a request that carries it: [.min(1)]
    counts code units and does not trim. *)
Lemma queryRequestSchema_accepts_blank_query :
  trim (lit " ") = []
  ∧ queryRequestSchema
      (Some (QueryRequest_json
               {| qr_query := lit " "; qr_mode := None; qr_prev := None |}))
    = OK (Some (JObj {[ lit "query" := JStr (lit " ");
                        lit "mode" := JStr (lit "search") ]})).
Proof. split; vm_compute; reflexivity. Qed.

(** C1, as the code has it.  For every QueryRequest, [queryRequestSchema]
    succeeds exactly when the [query] field has at least one code unit
    (nothing is trimmed there).  The trimming is [handleSubmit]'s: a query
    made of white space only gets the "Query Required" toast and no
    request, any other query is submitted trimmed with mode [search], and
    what is submitted passes the schema. *)
Theorem queryRequest_validation (r : QueryRequest) (s : QueryInterface.state) :
  let submitted :=
    {| qr_query := trim (QueryInterface.query s);
       qr_mode := Some search; qr_prev := None |} in
  (success (queryRequestSchema (Some (QueryRequest_json r))) = true
   ↔ qr_query r ≠ [])
  ∧ QueryInterface.handleSubmit s
    = (if forallb is_white_space (QueryInterface.query s)
       then QueryInterface.show QueryInterface.QueryRequired s
       else QueryInterface.mutate (QueryRequest_json submitted) s)
  ∧ success (queryRequestSchema (Some (QueryRequest_json submitted)))
    = negb (forallb is_white_space (QueryInterface.query s)).
Proof.
  intros submitted. split; [|split].
  - rewrite queryRequestSchema_typed, negb_true_iff. apply is_empty_false.
  - apply handleSubmit_cases.
  - rewrite queryRequestSchema_typed. f_equal. simpl.
    apply eq_true_iff_eq. by rewrite is_empty_true, trim_nil_iff.
Qed.

(** ** The typed client *)

Section Client.

Lemma js_or_truthy (a b : option json) :
  truthy b = true → ∃ m, js_or a b = Some m ∧ truthy (Some m) = true.
Proof.
  intros Hb. unfold js_or. destruct (truthy a) eqn:Ha.
  - destruct a as [m|]; [by exists m | done].
  - destruct b as [m|]; [by exists m | done].
Qed.

(** [converts] tells when [ToString] returns, whatever the printer of
    numbers. *)
Lemma ToString_converts (NumberToString : jsnum → jsstring) (v : json) :
  is_Some (ToString NumberToString v) ↔ converts v = true.
Proof.
  revert v. fix IH 1. intros [| [|] | n | s | l | m]; simpl;
    try (split; [done | by eexists]).
  - rewrite fmap_is_Some.
    induction l as [|x l IHl]; simpl; [split; [done | by eexists]|].
    rewrite andb_true_iff, <- IHl, <- (IH x).
    destruct x; simpl.
    all: repeat match goal with
         | |- context [match ?o with Some _ => _ | None => _ end] =>
             destruct o eqn:?; simpl
         end.
    all: try (split; [intros _; split; by eexists | by eexists]).
    all: try (split; [by intros [? [=]] | by intros [_ [? [=]]]]).
    all: try (split; [by intros [? [=]] | by intros [[? [=]] _]]).
  - case_bool_decide; simpl; split; try done; try (by intros [? [=]]).
Qed.

(** On a response that is not ok, [apiRequest] builds an [ApiError] of the
    response's status with a truthy message, unless the error body is the
    JSON [null]; building it throws a TypeError when the message does not
    convert to a string. *)
Lemma apiRequest_not_ok (endpoint : jsstring) (options : RequestInit) (r : Response) :
  ok r = false → json_body r ≠ Some JNull →
  ∃ m, resume (apiRequest endpoint options) (FetchResolves r)
       = Rejected (new_ApiError (status r) (Some m))
       ∧ truthy (Some m) = true.
Proof.
  intros Hok Hnull.
  assert (Hmsg : ∀ e, ∃ m,
    js_or e (Some (JStr (lit "API request failed"))) = Some m
    ∧ truthy (Some m) = true) by (intros e; by apply js_or_truthy).
  simpl. rewrite Hok. simpl.
  destruct (json_body r) as [[| b | n | t | l | m]|] eqn:E; try done; simpl;
    match goal with
    | |- context [new_ApiError _ (js_or ?e _)] =>
        destruct (Hmsg e) as (x & -> & Hx); by exists x
    end.
Qed.

Lemma apiRequest_null_body_TypeError (endpoint : jsstring) (options : RequestInit)
    (r : Response) :
  ok r = false → json_body r = Some JNull →
  resume (apiRequest endpoint options) (FetchResolves r) = Rejected TypeError.
Proof. intros Hok Hbody. simpl. by rewrite Hok, Hbody. Qed.

(** An [ApiError] with a string as its message is always built. *)
Lemma new_ApiError_string (st : Z) (s : jsstring) :
  new_ApiError st (Some (JStr s)) = ApiError st (Some (JStr s)).
Proof. done. Qed.

(** When the error body is not JSON, the message is the status text, or
    the fixed text when the status text is empty. *)
Lemma apiRequest_fallback_message (endpoint : jsstring) (options : RequestInit)
    (r : Response) :
  ok r = false → json_body r = None →
  resume (apiRequest endpoint options) (FetchResolves r)
  = Rejected (ApiError (status r)
      (Some (JStr (if is_empty (statusText r) then lit "API request failed"
                   else statusText r)))).
Proof.
  intros Hok Hbody. simpl. rewrite Hok, Hbody. simpl.
  rewrite lookup_singleton_eq, lookup_singleton_ne by done.
  unfold js_or, is_empty. simpl.
  destruct (bool_decide (statusText r = [])) eqn:E; simpl; [done|].
  by rewrite E.
Qed.

End Client.

(** C7, the input on which the code leaves the claim.  A response that is
    not ok and whose body is the JSON text [null] makes [apiRequest] read
    [error.error] on [null]: the call rejects with the engine's TypeError,
    not with an [ApiError], and carries neither status nor message. *)
Theorem apiRequest_null_error_body (endpoint : jsstring) (options : RequestInit)
    (r : Response) :
  ok r = false → json_body r = Some JNull →
  resume (apiRequest endpoint options) (FetchResolves r) = Rejected TypeError.
Proof. intros Hok Hbody. simpl. by rewrite Hok, Hbody. Qed.

Lemma apiRequest_null_error_body_witness :
  resume (apiRequest (lit "/ask") no_options)
    (FetchResolves {| status := 500; statusText := lit "Internal Server Error";
                      json_body := Some JNull |})
  = Rejected TypeError.
Proof. apply apiRequest_null_error_body; reflexivity. Defined.

(** C3, counterexample.  A [/config] response with status 200 whose body
    lacks the required [error_handling] section does not satisfy
    [configSchema], yet [getConfig] resolves with it, the section still
    missing. *)
Lemma getConfig_resolves_with_malformed_body :
  let body :=
    JObj {[ lit "openai" := JObj {[ lit "has_api_key" := JBool true ]};
            lit "nlweb" := JObj ∅ ]} in
  success (configSchema (Some body)) = false
  ∧ resume api.getConfig
      (FetchResolves {| status := 200; statusText := lit "OK";
                        json_body := Some body |})
    = Resolved body
  ∧ get_prop body (lit "error_handling") = Gives None.
Proof. repeat split; vm_compute; reflexivity. Qed.

(** C3, as the code has it.  For every [/config] response that is ok and
    whose body is JSON, [getConfig] resolves with that body exactly as
    received, whether or not it has the Config shape: the call raises no
    error and fills nothing in.  [getConfig] rejects only when the fetch
    rejects, when the response is not ok, or when its body is not JSON. *)
Theorem getConfig_returns_body_as_received (r : Response) (body : json) :
  ok r = true → json_body r = Some body →
  resume api.getConfig (FetchResolves r) = Resolved body
  ∧ ∀ result e,
      resume api.getConfig result = Rejected e →
      result = FetchRejects e
      ∨ ∃ r', result = FetchResolves r'
              ∧ (ok r' = false ∨ json_body r' = None ∧ e = SyntaxError).
Proof.
  intros Hok Hbody. split.
  - simpl. by rewrite Hok, Hbody.
  - intros [e'|r'] e; simpl.
    + intros [= <-]. by left.
    + intros H. right. exists r'. split; [done|].
      destruct (ok r'); simpl in H; [|by left].
      destruct (json_body r'); [done|]. injection H as <-. by right.
Qed.

Lemma getConfig_returns_body_as_received_witness :
  resume api.getConfig
    (FetchResolves {| status := 200; statusText := lit "OK";
                      json_body := Some (JObj ∅) |})
  = Resolved (JObj ∅)
  ∧ ∀ result e,
      resume api.getConfig result = Rejected e →
      result = FetchRejects e
      ∨ ∃ r', result = FetchResolves r'
              ∧ (ok r' = false ∨ json_body r' = None ∧ e = SyntaxError).
Proof.
  apply (getConfig_returns_body_as_received
           {| status := 200; statusText := lit "OK"; json_body := Some (JObj ∅) |});
    reflexivity.
Defined.

(** ** Objects and their keys *)

Section Objects.

Lemma z_object_field (sh : shape) (mode : unknown_keys) (m : jsobject)
    (k : jsstring) (t : ZodType) :
  mode ≠ strict → (k, t) ∈ sh →
  success (z_object sh mode (Some (JObj m))) = true →
  success (t (m !! k)) = true.
Proof.
  intros Hmode Hin. rewrite z_object_success by done.
  rewrite forallb_forall. intros H.
  apply (H (k, t)). by apply list_elem_of_In.
Qed.

Lemma z_object_not_object (sh : shape) (mode : unknown_keys) (input : option json) :
  success (z_object sh mode input) = true → ∃ m, input = Some (JObj m).
Proof. destruct input as [[| | | | |m]|]; try done. by exists m. Qed.

Lemma z_literal_success (value : jsstring) (input : option json) :
  success (z_literal value input) = true → input = Some (JStr value).
Proof.
  destruct input as [[| | |s| |]|]; try done. simpl.
  case_bool_decide; [by subst | done].
Qed.

(** The output of an object schema under a key of its shape is the parse
    of the property of that name. *)
Lemma known_output_lookup (sh : shape) (m : jsobject) (k : jsstring) (t : ZodType) :
  NoDup (shape_keys sh) → (k, t) ∈ sh →
  known_output (parse_fields sh m) !! k
  = match t (m !! k) with
    | OK o => o
    | INVALID _ _ => None
    end.
Proof.
  induction sh as [|[k0 t0] sh IH]; [by intros _ ?%elem_of_nil|].
  intros [Hk0 Hnd]%NoDup_cons [[= -> ->]|Hin]%elem_of_cons.
  - unfold known_output. simpl.
    destruct (t0 (m !! k0)) as [[v|]|]; simpl.
    + by rewrite lookup_insert_eq.
    + by apply known_output_unknown.
    + by apply known_output_unknown.
  - assert (k ≠ k0).
    { intros ->. apply Hk0. apply list_elem_of_fmap. by exists (k0, t). }
    rewrite <- (IH Hnd Hin). unfold known_output. simpl.
    destruct (t0 (m !! k0)) as [[v|]|]; simpl; [|done..].
    by rewrite lookup_insert_ne.
Qed.

Lemma z_object_known (sh : shape) (mode : unknown_keys) (m out : jsobject)
    (k : jsstring) (t : ZodType) :
  NoDup (shape_keys sh) → (k, t) ∈ sh →
  z_object sh mode (Some (JObj m)) = OK (Some (JObj out)) →
  k ≠ lit "__proto__" →
  ∃ o, t (m !! k) = OK o ∧ out !! k = o.
Proof.
  intros Hnd Hin H Hproto.
  assert (Hs : success (t (m !! k)) = true).
  { assert (Hall : parse_fields sh m ≫= (λ kr, issues_of kr.2) = []).
    { unfold z_object in H. apply conclude_OK in H as [H _].
      by apply app_eq_nil in H as [H _]. }
    apply field_issues_nil in Hall. rewrite forallb_forall in Hall.
    apply (Hall (k, t)). by apply list_elem_of_In. }
  destruct (t (m !! k)) as [o|] eqn:E; [|done].
  exists o. split; [done|].
  unfold z_object in H. apply conclude_OK in H as [_ H].
  assert (Hk : known_output (parse_fields sh m) !! k = o)
    by (by rewrite (known_output_lookup sh m k t), E).
  destruct mode; injection H as H; subst out;
    rewrite lookup_mergeObject, bool_decide_eq_false_2 by done; [done| |done].
  rewrite lookup_union, Hk, lookup_extra_keys, bool_decide_eq_true_2.
  - by destruct o.
  - apply list_elem_of_fmap. by exists (k, t).
Qed.

(** An object all of whose properties parse to themselves, and which has
    nothing for the schema to drop, parses to itself. *)
Lemma z_object_fixed (sh : shape) (mode : unknown_keys) (m : jsobject) :
  mode ≠ strict → NoDup (shape_keys sh) →
  (∀ k t, (k, t) ∈ sh → t (m !! k) = OK (m !! k)) →
  m !! lit "__proto__" = None →
  (mode = strip → ∀ k, k ∉ shape_keys sh → m !! k = None) →
  z_object sh mode (Some (JObj m)) = OK (Some (JObj m)).
Proof.
  intros Hmode Hnd Hfield Hproto Hrest.
  assert (Hissues : parse_fields sh m ≫= (λ kr, issues_of kr.2) = []).
  { apply field_issues_nil, forallb_forall. intros [k t] Hin. simpl.
    apply list_elem_of_In in Hin. by rewrite (Hfield k t Hin). }
  assert (Hknown : ∀ k, k ∈ shape_keys sh →
            known_output (parse_fields sh m) !! k = m !! k).
  { intros k ([k' t] & -> & Hin)%list_elem_of_fmap. simpl.
    by rewrite (known_output_lookup sh m k' t Hnd Hin), (Hfield k' t Hin). }
  unfold z_object. rewrite Hissues.
  destruct mode; [| |done].
  all: match goal with
       | |- conclude (Some (JObj ?o)) _ = _ =>
           change (OK (Some (JObj o)) = OK (Some (JObj m)))
       end.
  all: cbv beta iota zeta; do 3 f_equal; apply map_eq;
    refine (λ k : jsstring, _).
  - change (mergeObject (known_output (parse_fields sh m)) !! k = m !! k).
    rewrite lookup_mergeObject. case_bool_decide as Hk; [by subst|].
    destruct (decide (k ∈ shape_keys sh)) as [Hin|Hin]; [by apply Hknown|].
    rewrite known_output_unknown by done. symmetry. by apply Hrest.
  - change (mergeObject (known_output (parse_fields sh m) ∪ extra_keys sh m) !! k
            = m !! k).
    rewrite lookup_mergeObject. case_bool_decide as Hk; [by subst|].
    rewrite lookup_union, lookup_extra_keys.
    case_bool_decide as Hin.
    + rewrite (Hknown k Hin). by destruct (m !! k).
    + by rewrite known_output_unknown, (left_id None _).
Qed.

End Objects.

(** C10.  [searchResponseSchema] succeeds only on an object whose ["@type"]
    property is the string ["SearchResultsPage"]: an input without that
    property, or with another value under it, fails. *)
Theorem searchResponseSchema_requires_type (input : option json) :
  success (searchResponseSchema input) = true →
  ∃ m, input = Some (JObj m)
       ∧ m !! lit "@type" = Some (JStr (lit "SearchResultsPage")).
Proof.
  intros H. destruct (z_object_not_object _ _ _ H) as [m ->].
  exists m. split; [done|].
  apply z_literal_success.
  apply (z_object_field _ strip m (lit "@type") (z_literal (lit "SearchResultsPage")))
    in H; [done..|].
  rewrite !elem_of_cons. auto.
Qed.

Lemma searchResponseSchema_requires_type_witness :
  ∃ m, Some (JObj {[ lit "@type" := JStr (lit "SearchResultsPage");
                     lit "mainEntity" := JArr [JObj {[ lit "@type" := JStr (lit "Hotel") ]}];
                     lit "query" := JStr (lit "hotels");
                     lit "numberOfItems" := JNum (int 1);
                     lit "processingTime" := JNum (Fin (1 # 4)) ]})
       = Some (JObj m)
       ∧ m !! lit "@type" = Some (JStr (lit "SearchResultsPage")).
Proof.
  apply searchResponseSchema_requires_type. vm_compute. reflexivity.
Defined.

(** ** Data sources *)

Section DataSources.
Import SchemaDataPanel.

(** The URL parser of the platform. *)
Variable URL_parses : jsstring → bool.

(** On the value the add dialog submits, [dataSourceSchema] succeeds
    exactly when the url parses and the type is one of the two of the
    enum. *)
Lemma dataSourceSchema_submission (n : NewSource) :
  success (dataSourceSchema URL_parses (Some (to_json n)))
  = URL_parses (url n)
    && bool_decide (type n ∈ [lit "schema_org"; lit "rss"]).
Proof.
  unfold dataSourceSchema, to_json. rewrite z_object_success by done.
  cbn [forallb fst snd].
  change (success (z_string [] (Some (JStr (name n))))
          && (success (z_string [str_url URL_parses] (Some (JStr (url n))))
          && (success (z_enum [lit "schema_org"; lit "rss"] (Some (JStr (type n))))
          && (success (z_optional (z_string []) (Some (JStr (description n))))
          && true)))
          = URL_parses (url n)
            && bool_decide (type n ∈ [lit "schema_org"; lit "rss"])).
  simpl. unfold str_url.
  destruct (URL_parses (url n)); simpl; [|done].
  by case_bool_decide.
Qed.

(** Whatever the parser accepts has a scheme, so the schema rejects a
    submission whose url has none. *)
Hypothesis parsed_has_scheme : ∀ u, URL_parses u = true → has_scheme u = true.

Lemma dataSourceSchema_needs_scheme (n : NewSource) :
  has_scheme (url n) = false →
  success (dataSourceSchema URL_parses (Some (to_json n))) = false.
Proof.
  intros Hn. rewrite dataSourceSchema_submission.
  destruct (URL_parses (url n)) eqn:E; [|done].
  apply parsed_has_scheme in E. congruence.
Qed.

End DataSources.

(** C2, counterexample.  The string ["not-a-url"] has no scheme, so it
    does not parse as a URL; with a name and that url, [handleAddSource]
    starts the mutation, and [api.addDataSource] sends the POST to
    [/api/data-sources] with that url in its body. *)
Lemma handleAddSource_sends_not_a_url :
  has_scheme (lit "not-a-url") = false
  ∧ SchemaDataPanel.network
    (SchemaDataPanel.handleAddSource
       {| SchemaDataPanel.name := lit "x";
          SchemaDataPanel.url := lit "not-a-url";
          SchemaDataPanel.type := lit "schema_org";
          SchemaDataPanel.description := [] |})
  = [ {| req_url := lit "/api/data-sources";
         req_method := lit "POST";
         req_headers := {[ lit "Content-Type" := lit "application/json" ]};
         req_body := Some (JObj {[ lit "name" := JStr (lit "x");
                                   lit "url" := JStr (lit "not-a-url");
                                   lit "type" := JStr (lit "schema_org");
                                   lit "description" := JStr [] ]}) |} ].
Proof. split; vm_compute; reflexivity. Qed.

(** C2, as the code has it.  [dataSourceSchema] rejects a submission whose
    url does not parse, but [handleAddSource] does not consult it: its only
    guard is that name and url are not empty.  A submission with an empty
    name or url gets a toast and no network request; every other
    submission, whatever the syntax of its url, makes [addDataSource] issue
    one POST to [/api/data-sources] with the submission as its body. *)
Theorem handleAddSource_guard (URL_parses : jsstring → bool)
    (n : SchemaDataPanel.NewSource) :
  success (dataSourceSchema URL_parses (Some (SchemaDataPanel.to_json n)))
  = URL_parses (SchemaDataPanel.url n)
    && bool_decide (SchemaDataPanel.type n ∈ [lit "schema_org"; lit "rss"])
  ∧ SchemaDataPanel.network (SchemaDataPanel.handleAddSource n)
    = if is_empty (SchemaDataPanel.name n) || is_empty (SchemaDataPanel.url n)
      then []
      else [ {| req_url := lit "/api/data-sources";
                req_method := lit "POST";
                req_headers := {[ lit "Content-Type" := lit "application/json" ]};
                req_body := Some (SchemaDataPanel.to_json n) |} ].
Proof.
  split.
  - apply dataSourceSchema_submission.
  - unfold SchemaDataPanel.handleAddSource.
    by destruct (is_empty (SchemaDataPanel.name n) || is_empty (SchemaDataPanel.url n)).
Qed.

(** ** Saving a configuration section *)

(** C9.  Every update request that [handleSave] produces for a section is
    a POST to [/api/config] whose body is an object with no property other
    than that section's key, holding the section as the panel has it; there
    is at most one such request, and none while no configuration is
    loaded. *)
Theorem handleSave_sends_selected_section_only
    (sec : ConfigurationPanel.section) (s : ConfigurationPanel.state) (c : call) :
  c ∈ ConfigurationPanel.handleSave sec s →
  ConfigurationPanel.handleSave sec s = [c]
  ∧ req_url (fetch c) = lit "/api/config"
  ∧ req_method (fetch c) = lit "POST"
  ∧ ∃ body, req_body (fetch c) = Some (JObj body)
      ∧ get_prop (ConfigurationPanel.config s) (ConfigurationPanel.key sec)
        = Gives (body !! ConfigurationPanel.key sec)
      ∧ ∀ k, k ≠ ConfigurationPanel.key sec → body !! k = None.
Proof.
  unfold ConfigurationPanel.handleSave.
  destruct (truthy (Some (ConfigurationPanel.config s))); simpl;
    [|by intros ?%elem_of_nil].
  destruct (get_prop _ _) as [|v] eqn:E; [by intros ?%elem_of_nil|].
  intros ->%list_elem_of_singleton.
  repeat split. eexists. split; [reflexivity|].
  destruct v as [x|]; simpl; split.
  - by rewrite lookup_singleton_eq.
  - intros k Hk. by rewrite lookup_singleton_ne.
  - by rewrite lookup_empty.
  - intros k _. by rewrite lookup_empty.
Qed.

Lemma handleSave_sends_selected_section_only_witness :
  let s := {| ConfigurationPanel.config :=
                JObj {[ lit "openai" := JObj {[ lit "model" := JStr (lit "gpt-4") ]};
                        lit "nlweb" := JObj {[ lit "server_port" := JNum (int 5000) ]};
                        lit "error_handling" := JObj {[ lit "timeout" := JNum (int 30) ]} ]} |} in
  let c := api.updateConfig
             (JObj {[ lit "openai" := JObj {[ lit "model" := JStr (lit "gpt-4") ]} ]}) in
  ConfigurationPanel.handleSave ConfigurationPanel.openai s = [c]
  ∧ req_url (fetch c) = lit "/api/config"
  ∧ req_method (fetch c) = lit "POST"
  ∧ ∃ body, req_body (fetch c) = Some (JObj body)
      ∧ get_prop (ConfigurationPanel.config s)
          (ConfigurationPanel.key ConfigurationPanel.openai)
        = Gives (body !! ConfigurationPanel.key ConfigurationPanel.openai)
      ∧ ∀ k, k ≠ ConfigurationPanel.key ConfigurationPanel.openai → body !! k = None.
Proof.
  intros s c.
  apply (handleSave_sends_selected_section_only ConfigurationPanel.openai s c).
  vm_compute. apply list_elem_of_here.
Defined.

(** ** Unknown fields *)

Section UnknownFields.


End UnknownFields.




(** ** Numeric ranges of the configuration *)

Section Ranges.

Lemma number_in_range (lo hi : Z) (n : jsnum) :
  success (z_number [num_min (int lo); num_max (int hi)] (Some (JNum n))) = true
  ↔ in_range lo hi n.
Proof.
  unfold in_range. destruct n as [q| | |]; simpl.
  - unfold num_min, num_max, int. simpl.
    destruct (Qle_bool (inject_Z lo) q) eqn:E1;
      destruct (Qle_bool q (inject_Z hi)) eqn:E2; simpl.
    + split; [|done]. intros _. exists q.
      by rewrite <- !Qle_bool_iff, E1, E2.
    + split; [done|]. intros (q' & [= <-] & _ & H).
      apply Qle_bool_iff in H. congruence.
    + split; [done|]. intros (q' & [= <-] & H & _).
      apply Qle_bool_iff in H. congruence.
    + split; [done|]. intros (q' & [= <-] & H & _).
      apply Qle_bool_iff in H. congruence.
  - split; [done|]. by intros (q & ? & _).
  - split; [done|]. by intros (q & ? & _).
  - split; [done|]. by intros (q & ? & _).
Qed.

(** A number that passes is returned as it is: nothing is clamped. *)
Lemma z_number_unchanged (checks : list number_check) (input : option json) :
  success (z_number checks input) = true → z_number checks input = OK input.
Proof.
  destruct input as [[| |[q| | |]| | |]|]; try done; simpl;
    match goal with |- context [conclude _ ?l] => by destruct l end.
Qed.

Lemma shape_key_unique (sh : shape) (k : jsstring) (t t' : ZodType) :
  NoDup (shape_keys sh) → (k, t) ∈ sh → (k, t') ∈ sh → t = t'.
Proof.
  induction sh as [|[k0 t0] sh IH]; [by intros _ ?%elem_of_nil|].
  intros [Hk0 Hnd]%NoDup_cons H1 H2.
  assert (Hin : ∀ x, (k0, x) ∈ sh → False).
  { intros x Hx. apply Hk0. apply list_elem_of_fmap. by exists (k0, x). }
  apply elem_of_cons in H1 as [H1|H1];
    apply elem_of_cons in H2 as [H2|H2]; simplify_eq; try done.
  - by destruct (Hin t').
  - by destruct (Hin t).
  - by apply IH.
Qed.

Lemma z_object_success_OK (sh : shape) (mode : unknown_keys) (input : option json) :
  success (z_object sh mode input) = true →
  ∃ out, z_object sh mode input = OK (Some (JObj out)).
Proof.
  destruct input as [[| | | | |m]|]; try done. unfold z_object.
  destruct (_ ++ _); [|done]. simpl. eauto.
Qed.

Lemma range_enforced_by_shape (sh : shape) (k : jsstring) (lo hi : Z) (d : json) :
  NoDup (shape_keys sh) → k ≠ lit "__proto__" →
  (k, z_default (z_number [num_min (int lo); num_max (int hi)]) d) ∈ sh →
  range_enforced (z_object sh strip) k lo hi.
Proof.
  intros Hnd Hproto Hin m n. split.
  - intros H. eapply z_object_field in H; [|done|exact Hin].
    rewrite lookup_insert_eq in H. by apply number_in_range.
  - intros Hn Hrest. apply number_in_range in Hn.
    assert (Hs : success (z_object sh strip (Some (JObj (<[ k := JNum n ]> m)))) = true).
    { rewrite z_object_success in Hrest |- * by done.
      rewrite forallb_forall in Hrest |- *.
      intros [k' t'] Hin'. simpl.
      destruct (decide (k' = k)) as [->|Hne].
      - apply list_elem_of_In in Hin'.
        rewrite <- (shape_key_unique sh k _ t' Hnd Hin Hin').
        by rewrite lookup_insert_eq.
      - specialize (Hrest _ Hin'). simpl in Hrest.
        by rewrite lookup_insert_ne, <- (lookup_delete_ne m k k'). }
    destruct (z_object_success_OK _ _ _ Hs) as [out Hout].
    exists out. split; [done|].
    destruct (z_object_known _ _ _ _ _ _ Hnd Hin Hout Hproto) as (o & Ho & ->).
    rewrite lookup_insert_eq in Ho.
    change (z_number [num_min (int lo); num_max (int hi)] (Some (JNum n)) = OK o)
      in Ho.
    rewrite z_number_unchanged in Ho by done. congruence.
Qed.

(** A value of one of the two section types parses to itself when its
    ranged numbers lie in their ranges. *)
Lemma OpenAIConfig_valid (c : OpenAIConfig) :
  in_range 0 1 (oc_temperature c) → in_range 1 4000 (oc_max_tokens c) →
  openaiConfigSchema (Some (OpenAIConfig_json c)) = OK (Some (OpenAIConfig_json c)).
Proof.
  intros Ht Hm. apply number_in_range, z_number_unchanged in Ht, Hm.
  apply z_object_fixed; [done | by_evaluation | | by lookup_literal |].
  - intros k t Hin. repeat (apply elem_of_cons in Hin as [[= -> ->]|Hin]);
      [..|by apply elem_of_nil in Hin]; lookup_literal; done.
  - intros _ k Hk. cbn in Hk. rewrite !not_elem_of_cons in Hk.
    destruct Hk as (? & ? & ? & ? & _).
    by rewrite !lookup_insert_ne, lookup_singleton_ne.
Qed.

Lemma ErrorHandlingConfig_valid (c : ErrorHandlingConfig) :
  in_range 1 10 (eh_retry_attempts c) → in_range 5 120 (eh_timeout c) →
  errorHandlingConfigSchema (Some (ErrorHandlingConfig_json c))
  = OK (Some (ErrorHandlingConfig_json c)).
Proof.
  intros Hr Ht. apply number_in_range, z_number_unchanged in Hr, Ht.
  apply z_object_fixed; [done | by_evaluation | | by lookup_literal |].
  - intros k t Hin. repeat (apply elem_of_cons in Hin as [[= -> ->]|Hin]);
      [..|by apply elem_of_nil in Hin]; lookup_literal; try done.
    by destruct (eh_backoff_strategy c).
  - intros _ k Hk. cbn in Hk. rewrite !not_elem_of_cons in Hk.
    destruct Hk as (? & ? & ? & ? & _).
    by rewrite !lookup_insert_ne, lookup_singleton_ne.
Qed.

End Ranges.

(** C8.  Each configuration subsection fails on a number outside the range
    of its field and parses a number inside it without changing it:
    [temperature] in 0..1 and [max_tokens] in 1..4000 for the openai
    section, [retry_attempts] in 1..10 and [timeout] in 5..120 for the
    error-handling section.  Values inside the ranges do validate: every
    OpenAIConfig and every ErrorHandlingConfig whose numbers lie in their
    ranges parses, to itself, and fails as soon as one of them lies
    outside.  A Config parses exactly when its three subsections do. *)
Theorem config_ranges_enforced :
  range_enforced openaiConfigSchema (lit "temperature") 0 1
  ∧ range_enforced openaiConfigSchema (lit "max_tokens") 1 4000
  ∧ range_enforced errorHandlingConfigSchema (lit "retry_attempts") 1 10
  ∧ range_enforced errorHandlingConfigSchema (lit "timeout") 5 120
  ∧ (∀ c : OpenAIConfig,
       (in_range 0 1 (oc_temperature c) ∧ in_range 1 4000 (oc_max_tokens c) →
        openaiConfigSchema (Some (OpenAIConfig_json c))
        = OK (Some (OpenAIConfig_json c)))
       ∧ (success (openaiConfigSchema (Some (OpenAIConfig_json c))) = true →
          in_range 0 1 (oc_temperature c) ∧ in_range 1 4000 (oc_max_tokens c)))
  ∧ (∀ c : ErrorHandlingConfig,
       (in_range 1 10 (eh_retry_attempts c) ∧ in_range 5 120 (eh_timeout c) →
        errorHandlingConfigSchema (Some (ErrorHandlingConfig_json c))
        = OK (Some (ErrorHandlingConfig_json c)))
       ∧ (success (errorHandlingConfigSchema (Some (ErrorHandlingConfig_json c))) = true →
          in_range 1 10 (eh_retry_attempts c) ∧ in_range 5 120 (eh_timeout c)))
  ∧ ∀ cfg : jsobject,
      success (configSchema (Some (JObj cfg)))
      = success (openaiConfigSchema (cfg !! lit "openai"))
        && success (nlwebConfigSchema (cfg !! lit "nlweb"))
        && success (errorHandlingConfigSchema (cfg !! lit "error_handling")).
Proof.
  assert (H1 : range_enforced openaiConfigSchema (lit "temperature") 0 1).
  { eapply range_enforced_by_shape;
      [by_evaluation | by_evaluation | rewrite !elem_of_cons; auto 10]. }
  assert (H2 : range_enforced openaiConfigSchema (lit "max_tokens") 1 4000).
  { eapply range_enforced_by_shape;
      [by_evaluation | by_evaluation | rewrite !elem_of_cons; auto 10]. }
  assert (H3 : range_enforced errorHandlingConfigSchema (lit "retry_attempts") 1 10).
  { eapply range_enforced_by_shape;
      [by_evaluation | by_evaluation | rewrite !elem_of_cons; auto 10]. }
  assert (H4 : range_enforced errorHandlingConfigSchema (lit "timeout") 5 120).
  { eapply range_enforced_by_shape;
      [by_evaluation | by_evaluation | rewrite !elem_of_cons; auto 10]. }
  split; [exact H1|]. split; [exact H2|]. split; [exact H3|]. split; [exact H4|].
  split; [|split].
  - intros c. split; [intros [? ?]; by apply OpenAIConfig_valid|].
    intros Hs. unfold openaiConfigSchema, OpenAIConfig_json in Hs.
    split; apply number_in_range.
    + eapply (z_object_field _ _ _ (lit "temperature")) in Hs;
        [|done|rewrite !elem_of_cons; auto 10].
      revert Hs. by lookup_literal.
    + eapply (z_object_field _ _ _ (lit "max_tokens")) in Hs;
        [|done|rewrite !elem_of_cons; auto 10].
      revert Hs. by lookup_literal.
  - intros c. split; [intros [? ?]; by apply ErrorHandlingConfig_valid|].
    intros Hs. unfold errorHandlingConfigSchema, ErrorHandlingConfig_json in Hs.
    split; apply number_in_range.
    + eapply (z_object_field _ _ _ (lit "retry_attempts")) in Hs;
        [|done|rewrite !elem_of_cons; auto 10].
      revert Hs. by lookup_literal.
    + eapply (z_object_field _ _ _ (lit "timeout")) in Hs;
        [|done|rewrite !elem_of_cons; auto 10].
      revert Hs. by lookup_literal.
  - intros cfg. unfold configSchema. rewrite z_object_success by done.
    simpl. by rewrite andb_true_r, andb_assoc.
Qed.

Lemma config_ranges_enforced_witness :
  let oc := {| oc_model := lit "gpt-4"; oc_temperature := Fin (1 # 2);
               oc_max_tokens := int 4000; oc_has_api_key := true |} in
  let eh := {| eh_retry_attempts := int 1; eh_timeout := int 120;
               eh_backoff_strategy := linear; eh_enable_fallback := false |} in
  (openaiConfigSchema (Some (OpenAIConfig_json oc)) = OK (Some (OpenAIConfig_json oc))
   ∧ errorHandlingConfigSchema (Some (ErrorHandlingConfig_json eh))
     = OK (Some (ErrorHandlingConfig_json eh)))
  ∧ success (openaiConfigSchema
               (Some (JObj (<[ lit "temperature" := JNum (Fin (3 # 2)) ]>
                              {[ lit "has_api_key" := JBool true ]})))) = false
  ∧ success (openaiConfigSchema
               (Some (JObj (<[ lit "max_tokens" := JNum (int 4001) ]>
                              {[ lit "has_api_key" := JBool true ]})))) = false
  ∧ success (errorHandlingConfigSchema
               (Some (JObj (<[ lit "retry_attempts" := JNum (int 0) ]> ∅)))) = false
  ∧ success (errorHandlingConfigSchema
               (Some (JObj (<[ lit "timeout" := JNum (int 121) ]> ∅)))) = false.
Proof.
  intros oc eh.
  destruct config_ranges_enforced as (Htemp & Hmax & Hretry & Htimeout & Hoc & Heh & _).
  assert (Hr : ∀ lo hi (z : Z), (lo ≤ z ≤ hi)%Z → in_range lo hi (int z)).
  { intros lo hi z [? ?]. exists (inject_Z z). split; [done|].
    by rewrite <- !Zle_Qle. }
  assert (Hout : ∀ lo hi (q : Q),
            (q < inject_Z lo)%Q ∨ (inject_Z hi < q)%Q → ¬ in_range lo hi (Fin q)).
  { intros lo hi q Hq (q' & [= <-] & H1 & H2).
    destruct Hq as [Hq|Hq]; [by apply Qlt_not_le in Hq | by apply Qlt_not_le in Hq]. }
  split; [split|].
  - apply (proj1 (Hoc oc)). split; [|by apply Hr].
    exists (1 # 2)%Q. split; [reflexivity|]. split; discriminate.
  - apply (proj1 (Heh eh)). split; by apply Hr.
  - split; [|split; [|split]].
    + apply not_true_is_false. intros E. apply (proj1 (Htemp _ _)) in E.
      revert E. apply Hout. right. reflexivity.
    + apply not_true_is_false. intros E. apply (proj1 (Hmax _ _)) in E.
      revert E. apply Hout. right. reflexivity.
    + apply not_true_is_false. intros E. apply (proj1 (Hretry _ _)) in E.
      revert E. apply Hout. left. reflexivity.
    + apply not_true_is_false. intros E. apply (proj1 (Htimeout _ _)) in E.
      revert E. apply Hout. right. reflexivity.
Defined.

(** ** The query pipeline *)

Section Pipeline.
Import QueryInterface.

Lemma serial_setQuery (q : jsstring) (s : state) : serial s → serial (setQuery q s).
Proof. done. Qed.

Lemma serial_show (t : toast) (s : state) : serial s → serial (show t s).
Proof. done. Qed.

Lemma serial_idle (s : state) : serial s → isPending s = false → inflight s = [].
Proof.
  unfold serial. destruct (inflight s) as [|[id r] [|]]; [done| |done].
  intros (_ & -> & _). done.
Qed.

Lemma serial_handleSubmit (s : state) :
  serial s → isPending s = false → serial (handleSubmit s).
Proof.
  intros Hs Hp. unfold handleSubmit.
  destruct (is_empty _); [by apply serial_show|].
  unfold serial, mutate. simpl. by rewrite (serial_idle s Hs Hp).
Qed.

Lemma finish_not_pending (id : nat) (st : mutation_status) (s : state) :
  current s = Some id → st ≠ pending → inflight s = [] ∨ (∃ r, inflight s = [(id, r)]) →
  serial (finish id st s).
Proof.
  intros Hc Hst Hin. unfold serial, finish, isPending. simpl.
  rewrite Hc, bool_decide_eq_true_2 by done.
  destruct Hin as [->|[r ->]].
  - rewrite filter_nil. by destruct st.
  - rewrite filter_cons_False, filter_nil by (simpl; intros H; by apply H).
    by destruct st.
Qed.

Lemma serial_settle (id : nat) (result : fetch_result) (s : state) :
  serial s → serial (settle id result s).
Proof.
  intros Hs. unfold settle.
  destruct (list_find _ _) as [[i [id' request]]|] eqn:E; [|done].
  unfold serial in Hs.
  destruct (inflight s) as [|[id0 r0] [|]] eqn:Ein; [done| |done].
  destruct Hs as (Hc & Hp & Hm).
  simpl in E. case_decide as Hid; [|done]. simpl in Hid. simplify_eq.
  destruct (resume (api.ask request) result) as [data|e].
  - unfold onSuccess.
    destruct (get_prop data (lit "numberOfItems")),
      (get_prop data (lit "processingTime"));
      try destruct (arg_converts _ && arg_converts _);
      apply finish_not_pending; simpl; eauto.
  - apply finish_not_pending; simpl; eauto.
Qed.

Lemma serial_step (s : state) (e : event) : serial s → serial (step s e).
Proof.
  intros Hs. destruct e as [text| |id result]; simpl.
  - by apply serial_setQuery.
  - destruct (isPending s) eqn:E; [done|]. by apply serial_handleSubmit.
  - by apply serial_settle.
Qed.

(** Every state the component reaches is serial. *)
Lemma serial_run (es : list event) : serial (run initial es).
Proof.
  unfold run. assert (H : serial initial) by done.
  revert H. generalize initial.
  induction es as [|e es IH]; intros s Hs; simpl; [done|].
  apply IH. by apply serial_step.
Qed.

(** An accepted submission puts exactly one request on the network: the
    POST of the trimmed query to [/api/ask]. *)
Lemma submitted_request (s : state) :
  serial s → isPending s = false →
  forallb is_white_space (query s) = false →
  requests_in_flight (step s Click)
  = [ {| req_url := lit "/api/ask";
         req_method := lit "POST";
         req_headers := {[ lit "Content-Type" := lit "application/json" ]};
         req_body := Some (QueryRequest_json
                             {| qr_query := trim (query s);
                                qr_mode := Some search; qr_prev := None |}) |} ].
Proof.
  intros Hs Hp Hq. simpl. rewrite Hp, handleSubmit_cases, Hq.
  unfold requests_in_flight, mutate. simpl.
  by rewrite (serial_idle s Hs Hp).
Qed.

End Pipeline.

Section Settling.
Import QueryInterface.

Lemma settle_found (s : state) (id : nat) (request : json) (result : fetch_result) :
  inflight s = [(id, request)] →
  settle id result s
  = match resume (api.ask request) result with
    | Resolved data =>
        match onSuccess data s with
        | (s', None) => finish id success s'
        | (s', Some e) => finish id error (onError e s')
        end
    | Rejected e => finish id error (onError e s)
    end.
Proof.
  intros H. unfold settle. rewrite H. simpl.
  by rewrite decide_True.
Qed.

Lemma onSuccess_results (data : json) (s : state) :
  results (onSuccess data s).1 = data
  ∧ current (onSuccess data s).1 = current s
  ∧ inflight (onSuccess data s).1 = inflight s.
Proof.
  unfold onSuccess.
  by destruct (get_prop data (lit "numberOfItems")),
    (get_prop data (lit "processingTime"));
    try destruct (arg_converts _ && arg_converts _).
Qed.

Lemma displayed_not_pending (s : state) :
  isPending s = false →
  displayed s = if truthy (Some (results s)) then Some (results s) else None.
Proof. intros H. unfold displayed. rewrite H. by destruct (truthy _). Qed.

Lemma displayed_pending (s : state) : isPending s = true → displayed s = None.
Proof. intros H. unfold displayed. rewrite H. by destruct (truthy _). Qed.

(** The effect of the response to the one request in flight. *)
Lemma settle_current (s : state) (id : nat) (request : json) (result : fetch_result) :
  inflight s = [(id, request)] → current s = Some id →
  let s' := settle id result s in
  inflight s' = [] ∧ isPending s' = false
  ∧ results s' = match resume (api.ask request) result with
                 | Resolved data => data
                 | Rejected _ => results s
                 end.
Proof.
  intros Hin Hc s'. subst s'. rewrite (settle_found s id request result Hin).
  assert (Hf : ∀ st s0, st ≠ pending → current s0 = Some id →
               inflight s0 = [(id, request)] →
               inflight (finish id st s0) = []
               ∧ isPending (finish id st s0) = false
               ∧ results (finish id st s0) = results s0).
  { intros st s0 Hst Hc0 Hin0. unfold finish, isPending. simpl.
    rewrite Hin0, Hc0, bool_decide_eq_true_2 by done.
    rewrite filter_cons_False, filter_nil by (simpl; intros H; by apply H).
    by destruct st. }
  destruct (resume (api.ask request) result) as [data|e].
  - destruct (onSuccess_results data s) as (Hr & Hc' & Hin').
    destruct (onSuccess data s) as [s1 [e|]]; simpl in Hr, Hc', Hin'.
    + destruct (Hf error (onError e s1)) as (H1 & H2 & H3);
        [done | simpl; congruence | simpl; congruence |].
      by rewrite H3.
    + destruct (Hf success s1) as (H1 & H2 & H3);
        [done | congruence | congruence |].
      by rewrite H3.
  - destruct (Hf error (onError e s)) as (H1 & H2 & H3); done.
Qed.




(** Two submissions one after the other; and a second click while the
    first request is in flight, which starts nothing. *)
Example arrivals_of_two_submissions :
  arrivals initial
    [ Input (lit "hotels"); Click;
      Fetched 0 (FetchResolves {| ApiClient.status := 200; statusText := lit "OK";
                                  json_body := Some (JObj ∅) |});
      Input (lit "museums"); Click;
      Fetched 1 (FetchRejects TypeError) ]
  = [0; 1]%nat.
Proof. vm_compute. reflexivity. Qed.

Example click_while_pending_starts_nothing :
  let s := run initial [Input (lit "hotels"); Click; Input (lit "museums"); Click] in
  mutationId s = 1%nat
  ∧ inflight s
    = [(0%nat, QueryRequest_json {| qr_query := lit "hotels";
                                    qr_mode := Some search; qr_prev := None |})].
Proof. split; vm_compute; reflexivity. Qed.

End Settling.

Section Stale.
Import QueryInterface.




End Stale.




(** C4, counterexample.  A first query succeeds, a second one fails with
    status 500: in the failed state the results panel shows the results of
    the first query. *)
Lemma failed_resubmission_shows_earlier_results :
  let first :=
    JObj {[ lit "@type" := JStr (lit "SearchResultsPage");
            lit "mainEntity" := JArr [JObj {[ lit "@type" := JStr (lit "Hotel") ]}];
            lit "query" := JStr (lit "hotels");
            lit "numberOfItems" := JNum (int 1);
            lit "processingTime" := JNum (Fin (1 # 4)) ]} in
  let s :=
    QueryInterface.run QueryInterface.initial
      [ QueryInterface.Input (lit "hotels");
        QueryInterface.Click;
        QueryInterface.Fetched 0
          (FetchResolves {| status := 200; statusText := lit "OK";
                            json_body := Some first |});
        QueryInterface.Input (lit "museums");
        QueryInterface.Click;
        QueryInterface.Fetched 1
          (FetchResolves {| status := 500;
                            statusText := lit "Internal Server Error";
                            json_body := None |}) ] in
  QueryInterface.status s = QueryInterface.error
  ∧ QueryInterface.displayed s = Some first.
Proof. split; vm_compute; reflexivity. Qed.

(** C4, as the code has it.  From a reachable state with no mutation
    pending, submitting a query that is not blank makes the mutation
    pending and keeps the stored results: they are not cleared, but the
    results panel is not rendered while the mutation is pending, so nothing
    is displayed during the fetch.  When the fetch then fails, the stored
    results are still the ones from before the submission and the panel
    shows what it showed before; when it succeeds, the new data replace
    them. *)
Theorem submitting_hides_but_keeps_results
    (es : list QueryInterface.event) (result : fetch_result) :
  let s := QueryInterface.run QueryInterface.initial es in
  let request :=
    QueryRequest_json
      {| qr_query := trim (QueryInterface.query s);
         qr_mode := Some search; qr_prev := None |} in
  let s1 := QueryInterface.step s QueryInterface.Click in
  let s2 := QueryInterface.step s1
              (QueryInterface.Fetched (QueryInterface.mutationId s) result) in
  QueryInterface.isPending s = false →
  forallb is_white_space (QueryInterface.query s) = false →
  QueryInterface.isPending s1 = true
  ∧ QueryInterface.inflight s1 = [(QueryInterface.mutationId s, request)]
  ∧ QueryInterface.results s1 = QueryInterface.results s
  ∧ QueryInterface.displayed s1 = None
  ∧ QueryInterface.isPending s2 = false
  ∧ match resume (api.ask request) result with
    | Resolved data => QueryInterface.results s2 = data
    | Rejected _ =>
        QueryInterface.results s2 = QueryInterface.results s
        ∧ QueryInterface.displayed s2 = QueryInterface.displayed s
    end.
Proof.
  intros s request s1 s2 Hp Hq.
  pose proof (serial_run es) as Hs. fold s in Hs.
  pose proof (serial_idle s Hs Hp) as Hin.
  assert (H1 : s1 = QueryInterface.mutate request s).
  { unfold s1. simpl. by rewrite Hp, handleSubmit_cases, Hq. }
  assert (Hin1 : QueryInterface.inflight s1 = [(QueryInterface.mutationId s, request)]).
  { rewrite H1. simpl. by rewrite Hin. }
  assert (Hc1 : QueryInterface.current s1 = Some (QueryInterface.mutationId s))
    by (by rewrite H1).
  assert (Hr1 : QueryInterface.results s1 = QueryInterface.results s)
    by (by rewrite H1).
  assert (Hp1 : QueryInterface.isPending s1 = true) by (by rewrite H1).
  destruct (settle_current s1 _ _ result Hin1 Hc1) as (_ & Hp2 & Hr2).
  change (QueryInterface.settle (QueryInterface.mutationId s) result s1) with s2
    in Hp2, Hr2.
  repeat split; try done.
  - by apply displayed_pending.
  - destruct (resume (api.ask request) result) as [data|e]; [done|].
    split; [congruence|].
    rewrite !displayed_not_pending by done. by rewrite Hr2, Hr1.
Qed.

Lemma submitting_hides_but_keeps_results_witness :
  let first :=
    JObj {[ lit "@type" := JStr (lit "SearchResultsPage");
            lit "mainEntity" := JArr [];
            lit "query" := JStr (lit "hotels");
            lit "numberOfItems" := JNum (int 0);
            lit "processingTime" := JNum (Fin (1 # 4)) ]} in
  let es :=
    [ QueryInterface.Input (lit "hotels");
      QueryInterface.Click;
      QueryInterface.Fetched 0
        (FetchResolves {| status := 200; statusText := lit "OK";
                          json_body := Some first |});
      QueryInterface.Input (lit "museums") ] in
  let result := FetchRejects TypeError in
  let s := QueryInterface.run QueryInterface.initial es in
  let request :=
    QueryRequest_json
      {| qr_query := trim (QueryInterface.query s);
         qr_mode := Some search; qr_prev := None |} in
  let s1 := QueryInterface.step s QueryInterface.Click in
  let s2 := QueryInterface.step s1
              (QueryInterface.Fetched (QueryInterface.mutationId s) result) in
  QueryInterface.isPending s1 = true
  ∧ QueryInterface.inflight s1 = [(QueryInterface.mutationId s, request)]
  ∧ QueryInterface.results s1 = QueryInterface.results s
  ∧ QueryInterface.displayed s1 = None
  ∧ QueryInterface.isPending s2 = false
  ∧ match resume (api.ask request) result with
    | Resolved data => QueryInterface.results s2 = data
    | Rejected _ =>
        QueryInterface.results s2 = QueryInterface.results s
        ∧ QueryInterface.displayed s2 = QueryInterface.displayed s
    end.
Proof.
  intros first es result s request s1 s2.
  apply (submitting_hides_but_keeps_results es result); vm_compute; reflexivity.
Defined.


(** * Further properties of the code *)

(** ** Validation is idempotent *)

Create HintDb idem.

Section Idempotence.

Lemma preserving_idempotent (t : ZodType) : preserving t → idempotent t.
Proof. intros H input out Ht. pose proof (H _ _ Ht) as ->. exact Ht. Qed.

Lemma z_string_preserving (checks : list string_check) :
  preserving (z_string checks).
Proof.
  intros [[| | |s| |]|] out; try done. simpl.
  by intros [_ ->]%conclude_OK.
Qed.

Lemma z_number_preserving (checks : list number_check) :
  preserving (z_number checks).
Proof.
  intros [[| |[q| | |]| | |]|] out; try done; simpl;
    by intros [_ ->]%conclude_OK.
Qed.

Lemma z_boolean_preserving : preserving z_boolean.
Proof. intros [[| b | | | |]|] out; try done. by intros [= <-]. Qed.

Lemma z_any_preserving : preserving z_any.
Proof. intros input out. by intros [= <-]. Qed.

Lemma z_enum_preserving (values : list jsstring) : preserving (z_enum values).
Proof.
  intros [[| | |s| |]|] out; try done. simpl.
  case_bool_decide; [|done]. by intros [= <-].
Qed.

Lemma z_literal_preserving (value : jsstring) : preserving (z_literal value).
Proof.
  intros [[| | |s| |]|] out; try done. simpl.
  case_bool_decide; [|done]. by intros [= <-].
Qed.

Lemma z_optional_idempotent (t : ZodType) :
  idempotent t → idempotent (z_optional t).
Proof.
  intros Ht [v|] out; simpl.
  - intros H. destruct out as [w|]; [|done]. by apply (Ht (Some v)).
  - by intros [= <-].
Qed.

Lemma z_nullable_idempotent (t : ZodType) :
  idempotent t → idempotent (z_nullable t).
Proof.
  intros Ht input out H.
  assert (Hcases : input = Some JNull ∧ out = Some JNull ∨ t input = OK out).
  { destruct input as [[| | | | |]|]; simpl in H; auto. left. by injection H as <-. }
  destruct Hcases as [[_ ->]|H']; [done|].
  apply Ht in H'. by destruct out as [[| | | | |]|].
Qed.

Lemma preserving_defined (t : ZodType) : preserving t → defined t.
Proof. intros H v out Ht. rewrite (H _ _ Ht). by eexists. Qed.

Lemma z_optional_defined (t : ZodType) : defined t → defined (z_optional t).
Proof. intros Ht v out H. by apply (Ht v). Qed.

Lemma z_nullable_defined (t : ZodType) : defined t → defined (z_nullable t).
Proof.
  intros Ht v out H. destruct v; try (by apply (Ht _ _ H)).
  injection H as <-. by eexists.
Qed.

Lemma z_default_defined (t : ZodType) (d : json) :
  defined t → defined (z_default t d).
Proof. intros Ht v out H. by apply (Ht v). Qed.

Lemma z_default_idempotent (t : ZodType) (d : json) :
  defined t → idempotent t → idempotent (z_default t d).
Proof.
  intros Hd Ht input out H.
  assert (Hin : ∃ v, t (Some v) = OK out).
  { destruct input as [v|]; simpl in H; eauto. }
  destruct Hin as [v Hv]. destruct (Hd _ _ Hv) as [w ->].
  simpl. by apply (Ht (Some v)).
Qed.

Lemma issues_nil_forall {A} (f : A → list issue) (l : list A) :
  l ≫= f = [] ↔ Forall (λ x, f x = []) l.
Proof.
  induction l as [|x l IH]; [by split; [constructor|]|].
  change ((x :: l) ≫= f) with (f x ++ (l ≫= f)).
  rewrite Forall_cons, <- IH. split.
  - by intros ?%app_eq_nil.
  - by intros [-> ->].
Qed.

Lemma z_array_defined (t : ZodType) : defined (z_array t).
Proof.
  intros v out H. destruct v; try done. simpl in H.
  apply conclude_OK in H as [_ ->]. by eexists.
Qed.

Lemma z_array_idempotent (t : ZodType) : idempotent t → idempotent (z_array t).
Proof.
  intros Ht input out H.
  destruct input as [[| | | |l|]|]; try done. simpl in H.
  apply conclude_OK in H as [Hall ->].
  apply issues_nil_forall in Hall.
  set (keep := λ r : parsed, match r with OK (Some y) => Some y | _ => None end).
  assert (Hl : Forall (λ y, t (Some y) = OK (Some y))
                 (omap keep ((λ x, t (Some x)) <$> l))).
  { clear Hall. induction l as [|x l IH]; [constructor|].
    rewrite fmap_cons. simpl.
    destruct (t (Some x)) as [[y|]|] eqn:E; simpl; try done.
    constructor; [|done]. by apply (Ht (Some x)). }
  generalize dependent (omap keep ((λ x, t (Some x)) <$> l)).
  intros l' Hl'.
  change (conclude (Some (JArr (omap keep ((λ x, t (Some x)) <$> l'))))
            (((λ x, t (Some x)) <$> l') ≫= issues_of) = OK (Some (JArr l'))).
  assert (Hsame : (λ x, t (Some x)) <$> l' = (λ y, OK (Some y)) <$> l').
  { induction Hl' as [|y l' Hy _ IH]; [done|]. by rewrite !fmap_cons, Hy, IH. }
  rewrite Hsame.
  assert (Hi : ((λ y, OK (Some y)) <$> l') ≫= issues_of = []).
  { clear. induction l' as [|y l' IH]; [done|]. by rewrite fmap_cons. }
  assert (Ho : omap keep ((λ y, OK (Some y)) <$> l') = l').
  { clear. induction l' as [|y l' IH]; [done|].
    rewrite fmap_cons. simpl. f_equal. exact IH. }
  by rewrite Hi, Ho.
Qed.

Lemma z_record_defined (t : ZodType) : defined (z_record t).
Proof.
  intros v out H. destruct v; try done. simpl in H.
  apply conclude_OK in H as [_ ->]. by eexists.
Qed.

Lemma z_record_idempotent (t : ZodType) : idempotent t → idempotent (z_record t).
Proof.
  intros Ht input out H.
  destruct input as [[| | | | |data]|]; try done. simpl in H.
  apply conclude_OK in H as [_ ->].
  set (keep := λ r : parsed, match r with OK (Some y) => Some y | _ => None end).
  set (out := mergeObject (omap keep ((λ v, t (Some v)) <$> data))).
  assert (Hout : ∀ k y, out !! k = Some y → t (Some y) = OK (Some y)).
  { intros k y. unfold out. rewrite lookup_mergeObject.
    case_bool_decide; [done|]. rewrite lookup_omap, lookup_fmap.
    match goal with
    | |- context [fmap _ ?x] => destruct x as [v|]; simpl; [|done]
    end.
    destruct (t (Some v)) as [[w|]|] eqn:E; simpl; try done.
    intros [= <-]. by apply (Ht (Some v)). }
  change (conclude (Some (JObj (mergeObject (omap keep ((λ v, t (Some v)) <$> out)))))
            (map_to_list ((λ v, t (Some v)) <$> out) ≫= (λ kr, issues_of kr.2))
          = OK (Some (JObj out))).
  assert (Hi : map_to_list ((λ v, t (Some v)) <$> out) ≫= (λ kr, issues_of kr.2) = []).
  { apply issues_nil_forall, Forall_forall. intros [k r] Hkr.
    apply elem_of_map_to_list in Hkr. rewrite lookup_fmap in Hkr.
    destruct (out !! k) as [y|] eqn:E; simpl in Hkr; [|done].
    rewrite (Hout k y E) in Hkr. by injection Hkr as <-. }
  assert (Ho : mergeObject (omap keep ((λ v, t (Some v)) <$> out)) = out).
  { apply map_eq. intros k. rewrite lookup_mergeObject.
    case_bool_decide as Hk.
    - subst k. unfold out. by rewrite lookup_mergeObject, bool_decide_eq_true_2.
    - rewrite lookup_omap, lookup_fmap.
      match goal with
      | |- context [fmap _ ?x] => destruct x as [y|] eqn:E; simpl; [|done]
      end.
      by rewrite (Hout k y E). }
  by rewrite Hi, Ho.
Qed.

Lemma z_object_defined (sh : shape) (mode : unknown_keys) : defined (z_object sh mode).
Proof.
  intros v out H. destruct v; try done. unfold z_object in H.
  apply conclude_OK in H as [_ ->]. by eexists.
Qed.

Lemma shape_key_has_schema (sh : shape) (k : jsstring) :
  k ∈ shape_keys sh → ∃ t, (k, t) ∈ sh.
Proof.
  intros ([k' t] & -> & Hin)%list_elem_of_fmap. by exists t.
Qed.

Lemma z_object_idempotent (sh : shape) (mode : unknown_keys) :
  mode ≠ strict → NoDup (shape_keys sh) → lit "__proto__" ∉ shape_keys sh →
  Forall (λ kt, idempotent kt.2) sh →
  idempotent (z_object sh mode).
Proof.
  intros Hmode Hnd Hproto Hsh input o H.
  destruct (z_object_not_object sh mode input) as [m ->]; [by rewrite H|].
  destruct (z_object_success_OK sh mode (Some (JObj m))) as [out Hout];
    [by rewrite H|].
  rewrite Hout in H. injection H as <-.
  apply z_object_fixed; [done..| | |].
  - intros k t Hin.
    assert (Hk : k ≠ lit "__proto__").
    { intros ->. apply Hproto. apply list_elem_of_fmap. by exists (lit "__proto__", t). }
    destruct (z_object_known sh mode m out k t Hnd Hin Hout Hk) as (o & Ho & ->).
    rewrite Forall_forall in Hsh. by apply (Hsh (k, t) Hin) in Ho.
  - unfold z_object in Hout. apply conclude_OK in Hout as [_ Hout].
    injection Hout as ->. by rewrite lookup_mergeObject, bool_decide_eq_true_2.
  - intros -> k Hk. by apply (z_object_strip_unknown sh m out k Hout).
Qed.

End Idempotence.

Ltac defined_schema :=
  lazymatch goal with
  | |- defined (z_object _ _) => apply z_object_defined
  | |- defined (z_array _) => apply z_array_defined
  | |- defined (z_record _) => apply z_record_defined
  | |- defined (z_optional _) => apply z_optional_defined; defined_schema
  | |- defined (z_nullable _) => apply z_nullable_defined; defined_schema
  | |- defined (z_default _ _) => apply z_default_defined; defined_schema
  | |- defined (z_string _) => apply preserving_defined, z_string_preserving
  | |- defined (z_number _) => apply preserving_defined, z_number_preserving
  | |- defined (z_enum _) => apply preserving_defined, z_enum_preserving
  | |- defined (z_literal _) => apply preserving_defined, z_literal_preserving
  | |- defined z_boolean => apply preserving_defined, z_boolean_preserving
  | |- defined z_any => apply preserving_defined, z_any_preserving
  end.

Ltac idempotent_schema :=
  lazymatch goal with
  | |- idempotent (z_object _ _) =>
      apply z_object_idempotent;
      [ done
      | by_evaluation
      | by_evaluation
      | repeat (apply Forall_cons; split; [simpl; idempotent_schema|]);
        apply Forall_nil_2 ]
  | |- idempotent (z_array _) => apply z_array_idempotent; idempotent_schema
  | |- idempotent (z_record _) => apply z_record_idempotent; idempotent_schema
  | |- idempotent (z_optional _) => apply z_optional_idempotent; idempotent_schema
  | |- idempotent (z_nullable _) => apply z_nullable_idempotent; idempotent_schema
  | |- idempotent (z_default _ _) =>
      apply z_default_idempotent; [defined_schema | idempotent_schema]
  | |- idempotent (z_string _) => apply preserving_idempotent, z_string_preserving
  | |- idempotent (z_number _) => apply preserving_idempotent, z_number_preserving
  | |- idempotent (z_enum _) => apply preserving_idempotent, z_enum_preserving
  | |- idempotent (z_literal _) => apply preserving_idempotent, z_literal_preserving
  | |- idempotent z_boolean => apply preserving_idempotent, z_boolean_preserving
  | |- idempotent z_any => apply preserving_idempotent, z_any_preserving
  | |- idempotent (?S _) => unfold S; idempotent_schema
  | |- idempotent ?S => unfold S; idempotent_schema
  end.

(** X1.  Every schema of [shared/schema.ts] modelled here is idempotent:
    a value it returns, with its defaults filled in and its unknown keys
    stripped or passed through, parses again and comes back unchanged. *)
Theorem schemas_idempotent (URL_parses : jsstring → bool) :
  idempotent queryRequestSchema
  ∧ idempotent openaiConfigSchema
  ∧ idempotent nlwebConfigSchema
  ∧ idempotent errorHandlingConfigSchema
  ∧ idempotent configSchema
  ∧ idempotent (dataSourceSchema URL_parses)
  ∧ idempotent schemaOrgObjectSchema
  ∧ idempotent searchResponseSchema
  ∧ idempotent logEntrySchema
  ∧ idempotent (statsSchema URL_parses)
  ∧ idempotent healthResponseSchema.
Proof. repeat split; idempotent_schema. Qed.

(** ** What validation returns *)

Section Outputs.

Lemma lookup_set_optional (k k' : jsstring) (v : option json) (m : jsobject) :
  set_optional k v m !! k'
  = if decide (k = k') then from_option Some (m !! k') v else m !! k'.
Proof.
  unfold set_optional. destruct v as [x|]; case_decide; subst; simpl;
    by rewrite ?lookup_insert_eq, ?lookup_insert_ne.
Qed.

Lemma query_field_OK (input out : option json) :
  z_string [str_min 1] input = OK out →
  ∃ q, input = Some (JStr q) ∧ out = Some (JStr q) ∧ q ≠ [].
Proof.
  destruct input as [[| | |q| |]|]; try done. simpl.
  destruct q as [|c q]; [done|]. intros [= <-]. by exists (c :: q).
Qed.

Lemma mode_field_OK (input out : option json) :
  z_default (z_enum [lit "search"; lit "chat"]) (JStr (lit "search")) input = OK out →
  ∃ mode, out = Some (JStr (mode_name mode))
          ∧ (input = None ∧ mode = search ∨ input = out).
Proof.
  destruct input as [[| | |s| |]|]; try done; simpl.
  - case_bool_decide as Hs; [|done]. intros [= <-].
    apply elem_of_cons in Hs as [->|Hs]; [exists search; auto|].
    apply list_elem_of_singleton in Hs as ->. exists chat; auto.
  - intros [= <-]. exists search; auto.
Qed.

Lemma prev_field_OK (input out : option json) :
  z_optional (z_string []) input = OK out →
  ∃ prev, input = (JStr <$> prev) ∧ out = input.
Proof.
  destruct input as [[| | |s| |]|]; try done; simpl.
  - intros [= <-]. by exists (Some s).
  - intros [= <-]. by exists None.
Qed.

End Outputs.

(** X2.  Whatever [queryRequestSchema] returns is a QueryRequest with its
    mode filled in: the query is the input's and is not empty, [prev] is
    the input's, the mode is the input's, or [search] when the input has
    none, and no other property is left. *)
Theorem queryRequestSchema_output_typed (input out : option json) :
  queryRequestSchema input = OK out →
  ∃ (m : jsobject) (q : jsstring) (mode : Mode) (prev : option jsstring),
    input = Some (JObj m)
    ∧ m !! lit "query" = Some (JStr q) ∧ q ≠ []
    ∧ m !! lit "prev" = (JStr <$> prev)
    ∧ (m !! lit "mode" = None ∧ mode = search
       ∨ m !! lit "mode" = Some (JStr (mode_name mode)))
    ∧ out = Some (QueryRequest_json
                    {| qr_query := q; qr_mode := Some mode; qr_prev := prev |}).
Proof.
  intros H.
  assert (Hs : success (queryRequestSchema input) = true) by (by rewrite H).
  unfold queryRequestSchema in H, Hs.
  set (tq := z_string [str_min 1]) in *.
  set (tm := z_default (z_enum [lit "search"; lit "chat"]) (JStr (lit "search"))) in *.
  set (tp := z_optional (z_string [])) in *.
  set (sh := [(lit "query", tq); (lit "mode", tm); (lit "prev", tp)]) in *.
  destruct (z_object_not_object _ _ _ Hs) as [m ->].
  destruct (z_object_success_OK _ _ _ Hs) as [o Ho].
  rewrite Ho in H. injection H as <-.
  assert (Hnd : NoDup (shape_keys sh)).
  { apply (bool_decide_unpack _). vm_compute. exact I. }
  assert (Hinq : (lit "query", tq) ∈ sh) by (unfold sh; rewrite !elem_of_cons; auto).
  assert (Hinm : (lit "mode", tm) ∈ sh) by (unfold sh; rewrite !elem_of_cons; auto).
  assert (Hinp : (lit "prev", tp) ∈ sh) by (unfold sh; rewrite !elem_of_cons; auto).
  destruct (z_object_known _ _ _ _ _ _ Hnd Hinq Ho ltac:(by_evaluation)) as (oq & Hq & Hoq).
  destruct (z_object_known _ _ _ _ _ _ Hnd Hinm Ho ltac:(by_evaluation)) as (om & Hm & Hom).
  destruct (z_object_known _ _ _ _ _ _ Hnd Hinp Ho ltac:(by_evaluation)) as (op & Hp & Hop).
  apply query_field_OK in Hq as (q & Hq & -> & Hne).
  apply mode_field_OK in Hm as (mode & -> & Hm).
  apply prev_field_OK in Hp as (prev & Hp & ->).
  exists m, q, mode, prev. repeat split; try done.
  cut (o = <[ lit "query" := JStr q ]>
              (set_optional (lit "mode") (Some (JStr (mode_name mode)))
                 (set_optional (lit "prev") (JStr <$> prev) ∅))).
  { by intros ->. }
  apply map_eq. refine (λ k : jsstring, _).
  change ((o : jsobject) !! k
          = (<[ lit "query" := JStr q ]>
               (set_optional (lit "mode") (Some (JStr (mode_name mode)))
                  (set_optional (lit "prev") (JStr <$> prev) ∅)) : jsobject) !! k).
  destruct (decide (k = lit "query")) as [->|Hkq].
  { by rewrite lookup_insert_eq. }
  rewrite lookup_insert_ne, !lookup_set_optional by done.
  destruct (decide (lit "mode" = k)) as [<-|Hkm]; [done|].
  destruct (decide (lit "prev" = k)) as [<-|Hkp].
  { rewrite Hop, Hp. by destruct prev. }
  rewrite lookup_empty.
  apply (z_object_strip_unknown _ _ _ _ Ho).
  unfold sh. simpl. rewrite !not_elem_of_cons.
  repeat split; try done. apply not_elem_of_nil.
Qed.

Lemma queryRequestSchema_output_typed_witness :
  ∃ (m : jsobject) (q : jsstring) (mode : Mode) (prev : option jsstring),
    Some (JObj {[ lit "query" := JStr (lit "hotels"); lit "debug" := JBool true ]})
    = Some (JObj m)
    ∧ m !! lit "query" = Some (JStr q) ∧ q ≠ []
    ∧ m !! lit "prev" = (JStr <$> prev)
    ∧ (m !! lit "mode" = None ∧ mode = search
       ∨ m !! lit "mode" = Some (JStr (mode_name mode)))
    ∧ Some (JObj {[ lit "query" := JStr (lit "hotels");
                    lit "mode" := JStr (lit "search") ]})
      = Some (QueryRequest_json
                {| qr_query := q; qr_mode := Some mode; qr_prev := prev |}).
Proof.
  apply queryRequestSchema_output_typed. vm_compute. reflexivity.
Defined.

Section Defaults.

Lemma ranged_field_OK (lo hi : Z) (d : json) (input out : option json) :
  z_default (z_number [num_min (int lo); num_max (int hi)]) d input = OK out →
  ∃ n, out = Some (JNum n) ∧ in_range lo hi n.
Proof.
  intros H.
  assert (Hin : ∃ v, z_number [num_min (int lo); num_max (int hi)] (Some v) = OK out).
  { destruct input as [v|]; simpl in H; eauto. }
  destruct Hin as [v Hv].
  pose proof (z_number_preserving _ _ _ Hv) as ->.
  destruct v as [| |n| | |]; try done.
  exists n. split; [done|]. apply number_in_range. by rewrite Hv.
Qed.

Lemma default_field_present (t : ZodType) (d : json) (input out : option json) :
  defined t → z_default t d input = OK out → is_Some out.
Proof.
  intros Hd H. destruct input as [v|]; simpl in H; by eapply Hd.
Qed.

Lemma boolean_field_present (input out : option json) :
  z_boolean input = OK out → is_Some out.
Proof. destruct input as [[| b | | | |]|]; try done. intros [= <-]. by eexists. Qed.

End Defaults.

(** X3.  Whatever [openaiConfigSchema] and [errorHandlingConfigSchema]
    return is complete: all four fields are there, also those the input
    left out, and the ranged numbers lie in their ranges. *)
Theorem config_output_complete (input out : option json) :
  (openaiConfigSchema input = OK out →
   ∃ (o : jsobject) (temperature max_tokens : jsnum),
     out = Some (JObj o)
     ∧ o !! lit "temperature" = Some (JNum temperature)
     ∧ in_range 0 1 temperature
     ∧ o !! lit "max_tokens" = Some (JNum max_tokens)
     ∧ in_range 1 4000 max_tokens
     ∧ is_Some (o !! lit "model")
     ∧ is_Some (o !! lit "has_api_key"))
  ∧ (errorHandlingConfigSchema input = OK out →
     ∃ (o : jsobject) (retry_attempts timeout : jsnum),
       out = Some (JObj o)
       ∧ o !! lit "retry_attempts" = Some (JNum retry_attempts)
       ∧ in_range 1 10 retry_attempts
       ∧ o !! lit "timeout" = Some (JNum timeout)
       ∧ in_range 5 120 timeout
       ∧ is_Some (o !! lit "backoff_strategy")
       ∧ is_Some (o !! lit "enable_fallback")).
Proof.
  split; intros H.
  - assert (Hs : success (openaiConfigSchema input) = true) by (by rewrite H).
    unfold openaiConfigSchema in H, Hs.
    set (t1 := z_default (z_string []) (JStr (lit "gpt-4"))) in *.
    set (t2 := z_default (z_number [num_min (int 0); num_max (int 1)])
                 (JNum (Fin (7 # 10)))) in *.
    set (t3 := z_default (z_number [num_min (int 1); num_max (int 4000)])
                 (JNum (int 2048))) in *.
    set (sh := [(lit "model", t1); (lit "temperature", t2);
                (lit "max_tokens", t3); (lit "has_api_key", z_boolean)]) in *.
    destruct (z_object_not_object _ _ _ Hs) as [m ->].
    destruct (z_object_success_OK _ _ _ Hs) as [o Ho].
    rewrite Ho in H. injection H as <-.
    assert (Hnd : NoDup (shape_keys sh))
      by (apply (bool_decide_unpack _); vm_compute; exact I).
    assert (H1 : (lit "model", t1) ∈ sh) by (unfold sh; rewrite !elem_of_cons; auto).
    assert (H2 : (lit "temperature", t2) ∈ sh)
      by (unfold sh; rewrite !elem_of_cons; auto).
    assert (H3 : (lit "max_tokens", t3) ∈ sh)
      by (unfold sh; rewrite !elem_of_cons; auto).
    assert (H4 : (lit "has_api_key", z_boolean) ∈ sh)
      by (unfold sh; rewrite !elem_of_cons; auto 10).
    destruct (z_object_known _ _ _ _ _ _ Hnd H1 Ho ltac:(by_evaluation)) as (o1 & Ho1 & <-).
    destruct (z_object_known _ _ _ _ _ _ Hnd H2 Ho ltac:(by_evaluation)) as (o2 & Ho2 & E2).
    destruct (z_object_known _ _ _ _ _ _ Hnd H3 Ho ltac:(by_evaluation)) as (o3 & Ho3 & E3).
    destruct (z_object_known _ _ _ _ _ _ Hnd H4 Ho ltac:(by_evaluation)) as (o4 & Ho4 & <-).
    apply ranged_field_OK in Ho2 as (n2 & -> & Hn2).
    apply ranged_field_OK in Ho3 as (n3 & -> & Hn3).
    exists o, n2, n3. repeat split; try done.
    + eapply default_field_present; [|exact Ho1].
      apply preserving_defined, z_string_preserving.
    + by eapply boolean_field_present.
  - assert (Hs : success (errorHandlingConfigSchema input) = true) by (by rewrite H).
    unfold errorHandlingConfigSchema in H, Hs.
    set (t1 := z_default (z_number [num_min (int 1); num_max (int 10)])
                 (JNum (int 3))) in *.
    set (t2 := z_default (z_number [num_min (int 5); num_max (int 120)])
                 (JNum (int 30))) in *.
    set (t3 := z_default (z_enum [lit "exponential"; lit "linear"; lit "fixed"])
                 (JStr (lit "exponential"))) in *.
    set (t4 := z_default z_boolean (JBool true)) in *.
    set (sh := [(lit "retry_attempts", t1); (lit "timeout", t2);
                (lit "backoff_strategy", t3); (lit "enable_fallback", t4)]) in *.
    destruct (z_object_not_object _ _ _ Hs) as [m ->].
    destruct (z_object_success_OK _ _ _ Hs) as [o Ho].
    rewrite Ho in H. injection H as <-.
    assert (Hnd : NoDup (shape_keys sh))
      by (apply (bool_decide_unpack _); vm_compute; exact I).
    assert (H1 : (lit "retry_attempts", t1) ∈ sh)
      by (unfold sh; rewrite !elem_of_cons; auto).
    assert (H2 : (lit "timeout", t2) ∈ sh) by (unfold sh; rewrite !elem_of_cons; auto).
    assert (H3 : (lit "backoff_strategy", t3) ∈ sh)
      by (unfold sh; rewrite !elem_of_cons; auto).
    assert (H4 : (lit "enable_fallback", t4) ∈ sh)
      by (unfold sh; rewrite !elem_of_cons; auto 10).
    destruct (z_object_known _ _ _ _ _ _ Hnd H1 Ho ltac:(by_evaluation)) as (o1 & Ho1 & E1).
    destruct (z_object_known _ _ _ _ _ _ Hnd H2 Ho ltac:(by_evaluation)) as (o2 & Ho2 & E2).
    destruct (z_object_known _ _ _ _ _ _ Hnd H3 Ho ltac:(by_evaluation)) as (o3 & Ho3 & <-).
    destruct (z_object_known _ _ _ _ _ _ Hnd H4 Ho ltac:(by_evaluation)) as (o4 & Ho4 & <-).
    apply ranged_field_OK in Ho1 as (n1 & -> & Hn1).
    apply ranged_field_OK in Ho2 as (n2 & -> & Hn2).
    exists o, n1, n2. repeat split; try done.
    + eapply default_field_present; [|exact Ho3].
      apply preserving_defined, z_enum_preserving.
    + eapply default_field_present; [|exact Ho4].
      apply preserving_defined, z_boolean_preserving.
Qed.

Lemma config_output_complete_witness :
  ∃ (o : jsobject) (retry_attempts timeout : jsnum),
    Some (JObj {[ lit "retry_attempts" := JNum (int 3);
                  lit "timeout" := JNum (int 60);
                  lit "backoff_strategy" := JStr (lit "exponential");
                  lit "enable_fallback" := JBool true ]})
    = Some (JObj o)
    ∧ o !! lit "retry_attempts" = Some (JNum retry_attempts)
    ∧ in_range 1 10 retry_attempts
    ∧ o !! lit "timeout" = Some (JNum timeout)
    ∧ in_range 5 120 timeout
    ∧ is_Some (o !! lit "backoff_strategy")
    ∧ is_Some (o !! lit "enable_fallback").
Proof.
  apply (config_output_complete
           (Some (JObj {[ lit "timeout" := JNum (int 60) ]}))).
  vm_compute. reflexivity.
Defined.

(** ** Structured data objects and search responses *)

Section Preservation.

Lemma z_optional_preserving (t : ZodType) : preserving t → preserving (z_optional t).
Proof.
  intros Ht [v|] out; simpl; [by apply Ht|]. by intros [= <-].
Qed.

Lemma z_array_preserving (t : ZodType) : preserving t → preserving (z_array t).
Proof.
  intros Ht input out H.
  destruct input as [[| | | |l|]|]; try done. simpl in H.
  apply conclude_OK in H as [Hall ->]. do 2 f_equal.
  apply issues_nil_forall in Hall.
  induction l as [|x l IH]; [done|].
  rewrite fmap_cons in Hall |- *. apply Forall_cons in Hall as [Hx Hall].
  simpl. destruct (t (Some x)) as [o|] eqn:E; [|done].
  apply Ht in E as ->. simpl. f_equal. by apply IH.
Qed.

(** An element of a valid array is valid. *)
Lemma z_array_elements (t : ZodType) (l : list json) :
  success (z_array t (Some (JArr l))) = true →
  Forall (λ x, success (t (Some x)) = true) l.
Proof.
  simpl. rewrite success_conclude, bool_decide_eq_true, issues_nil_forall.
  rewrite Forall_fmap. intros H. eapply Forall_impl; [exact H|].
  intros x Hx. simpl in Hx. by apply success_issues.
Qed.

(** Under a key of the shape whose schema is preserving, the output of an
    object schema has what the input has. *)
Lemma z_object_field_preserved (sh : shape) (mode : unknown_keys) (m out : jsobject)
    (k : jsstring) (t : ZodType) :
  NoDup (shape_keys sh) → (k, t) ∈ sh → preserving t →
  z_object sh mode (Some (JObj m)) = OK (Some (JObj out)) →
  k ≠ lit "__proto__" →
  out !! k = m !! k.
Proof.
  intros Hnd Hin Ht H Hk.
  destruct (z_object_known sh mode m out k t Hnd Hin H Hk) as (o & Ho & ->).
  by apply Ht.
Qed.

(** A [passthrough] object schema whose fields are preserving returns its
    input without the property ["__proto__"]. *)
Lemma z_object_passthrough_output (sh : shape) (m : jsobject) (o : option json) :
  NoDup (shape_keys sh) → Forall (λ kt, preserving kt.2) sh →
  z_object sh passthrough (Some (JObj m)) = OK o →
  o = Some (JObj (mergeObject m)).
Proof.
  intros Hnd Hsh H.
  assert (Hs : success (z_object sh passthrough (Some (JObj m))) = true)
    by (by rewrite H).
  destruct (z_object_success_OK _ _ _ Hs) as [out Hout].
  rewrite Hout in H. injection H as <-. do 2 f_equal.
  apply map_eq. refine (λ k : jsstring, _).
  change ((out : jsobject) !! k = mergeObject m !! k).
  rewrite lookup_mergeObject.
  destruct (decide (k ∈ shape_keys sh)) as [Hk|Hk].
  - case_bool_decide as Hp.
    + subst k. unfold z_object in Hout. apply conclude_OK in Hout as [_ Hout].
      injection Hout as ->. by rewrite lookup_mergeObject, bool_decide_eq_true_2.
    + apply shape_key_has_schema in Hk as [t Hin].
      rewrite Forall_forall in Hsh.
      by apply (z_object_field_preserved sh passthrough m out k t Hnd Hin (Hsh _ Hin)).
  - by apply (z_object_passthrough_unknown sh m out k Hout).
Qed.

Lemma schemaOrgObjectSchema_output (a : jsobject) (o : option json) :
  schemaOrgObjectSchema (Some (JObj a)) = OK o → o = Some (JObj (mergeObject a)).
Proof.
  apply z_object_passthrough_output.
  - by_evaluation.
  - repeat (apply Forall_cons; split;
            [simpl; repeat first
               [ apply z_optional_preserving | apply z_array_preserving
               | apply z_string_preserving | apply z_any_preserving ]|]).
    apply Forall_nil_2.
Qed.

(** The output of an array schema has one element for each element of
    the input, in the same order: its parse. *)
Lemma z_array_outputs (t : ZodType) (l : list json) (o : option json) :
  defined t → z_array t (Some (JArr l)) = OK o →
  ∃ outs, o = Some (JArr outs) ∧ Forall2 (λ x y, t (Some x) = OK (Some y)) l outs.
Proof.
  intros Ht H. simpl in H. apply conclude_OK in H as [Hall ->].
  eexists. split; [reflexivity|].
  apply issues_nil_forall in Hall.
  induction l as [|x l IH]; [constructor|].
  rewrite fmap_cons in Hall |- *. apply Forall_cons in Hall as [Hx Hall].
  simpl. destruct (t (Some x)) as [y|] eqn:E; [|done].
  destruct (Ht _ _ E) as [y' ->]. simpl. constructor; [done|]. by apply IH.
Qed.

(** The success of an object schema depends on its input through the
    success of its fields only. *)
Lemma z_object_success_ext (sh : shape) (mode : unknown_keys) (m m' : jsobject) :
  mode ≠ strict →
  (∀ k t, (k, t) ∈ sh → success (t (m !! k)) = success (t (m' !! k))) →
  success (z_object sh mode (Some (JObj m)))
  = success (z_object sh mode (Some (JObj m'))).
Proof.
  intros Hmode H. rewrite !z_object_success by done.
  apply eq_true_iff_eq. rewrite !forallb_forall.
  split; intros Hall [k t] Hin; specialize (Hall _ Hin); simpl in *;
    apply list_elem_of_In in Hin; by rewrite (H k t Hin) in *.
Qed.

End Preservation.

(** X4.  [schemaOrgObjectSchema] returns the object it is given without
    its property ["__proto__"], if it has one, and with all its other
    properties as they were.  A search response that validates keeps the
    items of its [mainEntity] in number and order, each of them the item
    of the input so treated; each item is an object with a string under
    ["@type"]. *)
Theorem search_response_items_unchanged (m out : jsobject) :
  searchResponseSchema (Some (JObj m)) = OK (Some (JObj out)) →
  (∀ (a : jsobject) (o : option json),
     schemaOrgObjectSchema (Some (JObj a)) = OK o →
     o = Some (JObj (delete (lit "__proto__") a)))
  ∧ ∃ items outs,
      m !! lit "mainEntity" = Some (JArr items)
      ∧ out !! lit "mainEntity" = Some (JArr outs)
      ∧ Forall2 (λ item kept, ∃ (a : jsobject) (type : jsstring),
                   item = JObj a ∧ a !! lit "@type" = Some (JStr type)
                   ∧ kept = JObj (delete (lit "__proto__") a)
                   ∧ schemaOrgObjectSchema (Some item) = OK (Some kept))
                items outs.
Proof.
  intros H. split; [exact schemaOrgObjectSchema_output|].
  unfold searchResponseSchema in H.
  match type of H with
  | z_object ?sh _ _ = _ => set (shape_of_response := sh) in *
  end.
  assert (Hnd : NoDup (shape_keys shape_of_response)) by by_evaluation.
  assert (Hin : (lit "mainEntity", z_array schemaOrgObjectSchema) ∈ shape_of_response)
    by (unfold shape_of_response; rewrite !elem_of_cons; auto).
  destruct (z_object_known _ _ _ _ _ _ Hnd Hin H ltac:(by_evaluation))
    as (o & Ho & Hout).
  destruct (m !! lit "mainEntity") as [[| | | |items|]|]; try done.
  destruct (z_array_outputs _ _ _ (z_object_defined _ _) Ho) as (outs & -> & Hall).
  exists items, outs. split; [done|]. split; [done|].
  eapply Forall2_impl; [exact Hall|]. intros item kept Hitem. cbv beta in Hitem.
  change (schemaOrgObjectSchema (Some item) = OK (Some kept)) in Hitem.
  assert (Hobj : success (schemaOrgObjectSchema (Some item)) = true)
    by (by rewrite Hitem).
  unfold schemaOrgObjectSchema in Hobj.
  destruct (z_object_not_object _ _ _ Hobj) as [a Ha]. injection Ha as ->.
  assert (Htype : success (z_string [] (a !! lit "@type")) = true).
  { eapply z_object_field in Hobj; [exact Hobj|done|].
    rewrite !elem_of_cons. auto. }
  destruct (a !! lit "@type") as [[| | |type| |]|] eqn:E; try done.
  exists a, type. repeat split; [exact E| |done].
  apply schemaOrgObjectSchema_output in Hitem. by injection Hitem as ->.
Qed.

Lemma search_response_items_unchanged_witness :
  let item :=
    JObj {[ lit "@type" := JStr (lit "Hotel"); lit "starRating" := JNum (int 4);
            lit "__proto__" := JObj {[ lit "admin" := JBool true ]} ]} in
  let kept :=
    JObj {[ lit "@type" := JStr (lit "Hotel"); lit "starRating" := JNum (int 4) ]} in
  let m : jsobject :=
    {[ lit "@type" := JStr (lit "SearchResultsPage");
       lit "mainEntity" := JArr [item];
       lit "query" := JStr (lit "hotels");
       lit "numberOfItems" := JNum (int 1);
       lit "processingTime" := JNum (Fin (1 # 4)) ]} in
  let out : jsobject := <[ lit "mainEntity" := JArr [kept] ]> m in
  (∀ (a : jsobject) (o : option json),
     schemaOrgObjectSchema (Some (JObj a)) = OK o →
     o = Some (JObj (delete (lit "__proto__") a)))
  ∧ ∃ items outs,
      m !! lit "mainEntity" = Some (JArr items)
      ∧ out !! lit "mainEntity" = Some (JArr outs)
      ∧ Forall2 (λ item kept, ∃ (a : jsobject) (type : jsstring),
                   item = JObj a ∧ a !! lit "@type" = Some (JStr type)
                   ∧ kept = JObj (delete (lit "__proto__") a)
                   ∧ schemaOrgObjectSchema (Some item) = OK (Some kept))
                items outs.
Proof.
  intros item kept m out.
  apply (search_response_items_unchanged m out). vm_compute. reflexivity.
Defined.

(** X5.  [searchResponseSchema] does not relate [numberOfItems] to
    [mainEntity]: whether a response validates does not depend on which
    number stands under [numberOfItems], as long as it is a number. *)
Theorem search_response_count_unchecked (m : jsobject) (n n' : jsnum) :
  n ≠ NaN → n' ≠ NaN →
  success (searchResponseSchema (Some (JObj (<[ lit "numberOfItems" := JNum n ]> m))))
  = success (searchResponseSchema (Some (JObj (<[ lit "numberOfItems" := JNum n' ]> m)))).
Proof.
  intros Hn Hn'. apply z_object_success_ext; [done|].
  intros k t Hin. destruct (decide (k = lit "numberOfItems")) as [->|Hk].
  - rewrite !lookup_insert_eq.
    match type of Hin with
    | _ ∈ ?sh =>
        assert (Hnd : NoDup (shape_keys sh))
          by (apply (bool_decide_unpack _); vm_compute; exact I);
        assert (Hnum : (lit "numberOfItems", z_number []) ∈ sh)
          by (rewrite !elem_of_cons; auto 10);
        rewrite (shape_key_unique sh _ _ _ Hnd Hin Hnum)
    end.
    by destruct n, n'.
  - by rewrite !lookup_insert_ne.
Qed.

Lemma search_response_count_unchecked_witness :
  let m : jsobject :=
    {[ lit "@type" := JStr (lit "SearchResultsPage");
       lit "mainEntity" := JArr [];
       lit "query" := JStr (lit "hotels");
       lit "processingTime" := JNum (Fin (1 # 4)) ]} in
  success (searchResponseSchema (Some (JObj (<[ lit "numberOfItems" := JNum (int 0) ]> m))))
  = success (searchResponseSchema (Some (JObj (<[ lit "numberOfItems" := JNum (int 7) ]> m)))).
Proof.
  intros m. apply search_response_count_unchecked; discriminate.
Defined.

(** ** Outcomes of the typed client *)

(** X6.  A call of the client resolves exactly when the fetch gives a
    response that is ok and whose body is JSON, and then with that body;
    in every other case it rejects. *)
Theorem apiRequest_resolves_iff (endpoint : jsstring) (options : RequestInit)
    (result : fetch_result) (v : json) :
  resume (apiRequest endpoint options) result = Resolved v
  ↔ ∃ r, result = FetchResolves r ∧ ok r = true ∧ json_body r = Some v.
Proof.
  split.
  - destruct result as [e|r]; [done|]. simpl.
    destruct (ok r) eqn:Hok; simpl.
    + destruct (json_body r) as [w|] eqn:Hb; [|done].
      intros [= ->]. by exists r.
    + destruct (json_body r) as [[| | | | |]|]; simpl; try done.
  - intros (r & -> & Hok & Hb). simpl. by rewrite Hok, Hb.
Qed.

Section Rejections.

Lemma js_or_converts (a b : option json) :
  arg_converts a = true → arg_converts b = true → arg_converts (js_or a b) = true.
Proof. intros Ha Hb. unfold js_or. by destruct (truthy a). Qed.

Lemma new_ApiError_cases (st : Z) (m : option json) :
  new_ApiError st m = ApiError st m ∧ arg_converts m = true
  ∨ new_ApiError st m = TypeError ∧ arg_converts m = false.
Proof. unfold new_ApiError. destruct (arg_converts m); auto. Qed.

End Rejections.

(** X7.  What a response that is not ok is rejected with.  It is always
    an [ApiError] or a TypeError.  An [ApiError] comes from no other
    response: the response is not ok, its body is not the JSON [null],
    the status carried is the response's and lies outside 200..299, and
    the message is truthy and converts to a string.  And an [ApiError] it
    is whenever the body is not [null] and what it has under [error] and
    under [message] converts to a string, as every string, number,
    boolean and [null] does. *)
Theorem apiRequest_rejects_with_ApiError (endpoint : jsstring)
    (options : RequestInit) (r : Response) :
  let result := resume (apiRequest endpoint options) (FetchResolves r) in
  (∀ st m, result = Rejected (ApiError st m) →
     ok r = false ∧ json_body r ≠ Some JNull ∧ st = status r
     ∧ ¬ (200 ≤ st ≤ 299)%Z
     ∧ truthy m = true ∧ arg_converts m = true)
  ∧ (ok r = false →
     result = Rejected TypeError
     ∨ ∃ m, result = Rejected (ApiError (status r) (Some m)))
  ∧ (ok r = false →
     ∀ error e m,
       json_body r = Some error →
       get_prop error (lit "error") = Gives e →
       get_prop error (lit "message") = Gives m →
       arg_converts e = true → arg_converts m = true →
       ∃ msg, result = Rejected (ApiError (status r) (Some msg))).
Proof.
  intros result. subst result. split; [|split].
  - intros st m H.
    assert (Hok : ok r = false).
    { destruct (ok r) eqn:Hok; [|done]. simpl in H. rewrite Hok in H. simpl in H.
      by destruct (json_body r). }
    assert (Hnull : json_body r ≠ Some JNull).
    { intros Hb. simpl in H. by rewrite Hok, Hb in H. }
    destruct (apiRequest_not_ok endpoint options r Hok Hnull) as (m' & Hm' & Ht).
    rewrite Hm' in H.
    destruct (new_ApiError_cases (status r) (Some m')) as [[E Hc]|[E _]];
      rewrite E in H; [|done].
    injection H as <- <-. repeat split; try done.
    unfold ok in Hok. intros [H1 H2].
    apply Z.leb_le in H1, H2. by rewrite H1, H2 in Hok.
  - intros Hok.
    assert (Hcases : json_body r = Some JNull ∨ json_body r ≠ Some JNull).
    { destruct (json_body r) as [[| | | | |]|]; auto. }
    destruct Hcases as [Hb|Hb].
    + left. by apply apiRequest_null_body_TypeError.
    + destruct (apiRequest_not_ok endpoint options r Hok Hb) as (m' & -> & Ht).
      destruct (new_ApiError_cases (status r) (Some m')) as [[-> _]|[-> _]]; eauto.
  - intros Hok error e m Hb He Hm Hce Hcm. simpl. rewrite Hok, Hb. simpl.
    rewrite He, Hm.
    destruct (js_or_truthy (js_or e m) (Some (JStr (lit "API request failed"))))
      as (msg & Hmsg & _); [done|].
    exists msg. rewrite <- Hmsg. f_equal.
    unfold new_ApiError. rewrite js_or_converts; [done| |done].
    by apply js_or_converts.
Qed.

Section ErrorText.
Variable NumberToString : jsnum → jsstring.
Variable engine_text : jsstring.

Lemma string_truthy (s : jsstring) : s ≠ [] → truthy (Some (JStr s)) = true.
Proof. intros H. simpl. by rewrite bool_decide_eq_false_2. Qed.

(** The text the toasts show for a rejection: [error.message]. *)
Lemma object_error_text (endpoint : jsstring) (options : RequestInit)
    (r : Response) (m : jsobject) :
  ok r = false → json_body r = Some (JObj m) →
  resume (apiRequest endpoint options) (FetchResolves r)
  = Rejected (new_ApiError (status r)
      (js_or (js_or (m !! lit "error") (m !! lit "message"))
             (Some (JStr (lit "API request failed"))))).
Proof. intros Hok Hb. simpl. by rewrite Hok, Hb. Qed.

End ErrorText.

(** X8.  The text of the server is shown as it came.  On a response that
    is not ok and whose body is an object, the message of the [ApiError]
    is the string under [error] when there is a non-empty one; when
    [error] is missing or falsy it is the non-empty string under
    [message]; and [error] wins when both are there. *)
Theorem server_error_text_verbatim (NumberToString : jsnum → jsstring)
    (engine_text : jsstring) (endpoint : jsstring) (options : RequestInit)
    (r : Response) (m : jsobject) (s : jsstring) :
  ok r = false → json_body r = Some (JObj m) → s ≠ [] →
  m !! lit "error" = Some (JStr s)
  ∨ truthy (m !! lit "error") = false ∧ m !! lit "message" = Some (JStr s) →
  ∃ e, resume (apiRequest endpoint options) (FetchResolves r) = Rejected e
       ∧ e = ApiError (status r) (Some (JStr s))
       ∧ error_message NumberToString engine_text e = s.
Proof.
  intros Hok Hb Hs Hcase.
  pose proof (string_truthy s Hs) as Ht.
  assert (Hmsg : js_or (js_or (m !! lit "error") (m !! lit "message"))
                   (Some (JStr (lit "API request failed")))
                 = Some (JStr s)).
  { unfold js_or. destruct Hcase as [He|[He Hm]].
    - by rewrite He, !Ht.
    - by rewrite He, Hm, !Ht. }
  exists (ApiError (status r) (Some (JStr s))). split; [|done].
  by rewrite (object_error_text endpoint options r m Hok Hb), Hmsg.
Qed.

Lemma server_error_text_verbatim_witness :
  ∃ e, resume (apiRequest (lit "/ask") no_options)
         (FetchResolves
            {| status := 503; statusText := lit "Service Unavailable";
               json_body := Some (JObj {[ lit "error" := JStr (lit "index is empty");
                                          lit "message" := JStr (lit "try later") ]}) |})
       = Rejected e
       ∧ e = ApiError 503 (Some (JStr (lit "index is empty")))
       ∧ error_message (λ _, []) [] e = lit "index is empty".
Proof.
  apply (server_error_text_verbatim (λ _, []) [] (lit "/ask") no_options
           {| status := 503; statusText := lit "Service Unavailable";
              json_body := Some (JObj {[ lit "error" := JStr (lit "index is empty");
                                         lit "message" := JStr (lit "try later") ]}) |}
           {[ lit "error" := JStr (lit "index is empty");
              lit "message" := JStr (lit "try later") ]}
           (lit "index is empty")); try reflexivity; try discriminate.
  left. reflexivity.
Defined.

(** X9.  When the body of a failed response gives no text, the client
    falls back: a body that is not JSON gives the status text of the
    response, and the fixed text ["API request failed"] when the status
    text is empty; a body that is an object with neither a truthy [error]
    nor a truthy [message] gives the fixed text. *)
Theorem api_error_fallback_text (NumberToString : jsnum → jsstring)
    (engine_text : jsstring) (endpoint : jsstring) (options : RequestInit)
    (r : Response) :
  ok r = false →
  (json_body r = None ∨
   ∃ m, json_body r = Some (JObj m)
        ∧ truthy (m !! lit "error") = false
        ∧ truthy (m !! lit "message") = false) →
  ∃ e, resume (apiRequest endpoint options) (FetchResolves r) = Rejected e
       ∧ error_message NumberToString engine_text e
         = match json_body r with
           | None => if is_empty (statusText r) then lit "API request failed"
                     else statusText r
           | Some _ => lit "API request failed"
           end.
Proof.
  intros Hok [Hb|(m & Hb & He & Hm)]; eexists.
  - split; [by apply apiRequest_fallback_message|]. by rewrite Hb.
  - split.
    + rewrite (object_error_text endpoint options r m Hok Hb).
      unfold js_or. rewrite He, Hm. simpl. by rewrite new_ApiError_string.
    + by rewrite Hb.
Qed.

Lemma api_error_fallback_text_witness :
  ∃ e, resume (apiRequest (lit "/logs") no_options)
         (FetchResolves {| status := 502; statusText := []; json_body := None |})
       = Rejected e
       ∧ error_message (λ _, []) [] e = lit "API request failed".
Proof.
  apply (api_error_fallback_text (λ _, []) [] (lit "/logs") no_options
           {| status := 502; statusText := []; json_body := None |});
    [reflexivity | by left].
Defined.

(** X10.  The nine members of [api] are uniform: each issues its one
    request under [/api] with the JSON content type as its only header;
    the members that take an argument POST it as the body, the others GET
    without a body; and all continue on the response in the same way. *)
Theorem api_members_uniform (c : capability) :
  (∃ path, req_url (fetch (perform c)) = lit "/api/" ++ path)
  ∧ req_headers (fetch (perform c))
    = {[ lit "Content-Type" := lit "application/json" ]}
  ∧ req_body (fetch (perform c)) = argument c
  ∧ req_method (fetch (perform c))
    = match argument c with
      | Some _ => lit "POST"
      | None => lit "GET"
      end
  ∧ resume (perform c) = resume (apiRequest [] no_options).
Proof.
  destruct c; (split; [eexists; reflexivity|]); repeat split.
Qed.

(** ** The log panel *)

Section Logs.
Import SystemLogsPanel.

Lemma startsWith_spec (s t : jsstring) :
  startsWith s t = true ↔ ∃ b, s = t ++ b.
Proof.
  revert s. induction t as [|c t IH]; intros s; simpl.
  - split; [intros _; by exists s | intros _; by destruct s].
  - destruct s as [|d s]; simpl.
    + split; [done|]. by intros [b ?].
    + rewrite andb_true_iff, N.eqb_eq, IH. split.
      * intros [-> [b ->]]. by exists b.
      * intros [b [= -> ->]]. split; [done|]. by exists b.
Qed.

(** [includes] finds exactly the substrings. *)
Lemma includes_spec (s t : jsstring) :
  includes s t = true ↔ ∃ a b, s = a ++ t ++ b.
Proof.
  induction s as [|d s IH].
  - change (includes [] t) with (startsWith [] t || false).
    rewrite orb_false_r, startsWith_spec. split.
    + intros [b ->]. by exists [], b.
    + intros (a & b & H). symmetry in H.
      apply app_eq_nil in H as [-> H]. apply app_eq_nil in H as [-> ->].
      by exists [].
  - change (includes (d :: s) t) with (startsWith (d :: s) t || includes s t).
    rewrite orb_true_iff, startsWith_spec, IH. split.
    + intros [[b ->]|(a & b & ->)]; [by exists [], b | by exists (d :: a), b].
    + intros ([|d' a] & b & H); simpl in H.
      * left. by exists b.
      * injection H as -> ->. right. by exists a, b.
Qed.

Variable toLowerCase : jsstring → jsstring.

Lemma keeps_spec (s : state) (log : LogEntry) :
  keeps toLowerCase s log = true
  ↔ (levelFilter s = lit "all"
     ∨ toLowerCase (level log) = toLowerCase (levelFilter s))
    ∧ (sourceFilter s = lit "all" ∨ source log = sourceFilter s)
    ∧ (searchTerm s = []
       ∨ ∃ a b, toLowerCase (message log) = a ++ toLowerCase (searchTerm s) ++ b).
Proof.
  unfold keeps, is_empty. rewrite <- includes_spec.
  repeat case_bool_decide; simpl;
    destruct (includes _ _); simpl; intuition congruence.
Qed.

End Logs.

(** X11.  The log list shows a selection of the fetched entries in their
    order, never more than were fetched and none when no data is there.
    An entry is shown exactly when it passes the three filters: its level
    equals the level filter up to case, its source equals the source
    filter exactly, and its message contains the search term up to case,
    where ["all"] and the empty term switch a filter off.  With the three
    filters off every entry is shown. *)
Theorem filteredLogs_selects (toLowerCase : jsstring → jsstring)
    (s : SystemLogsPanel.state) (logs : option (list SystemLogsPanel.LogEntry)) :
  let shown := SystemLogsPanel.filteredLogs toLowerCase s logs in
  sublist shown (default [] logs)
  ∧ length shown ≤ length (default [] logs)
  ∧ (∀ log, log ∈ shown
       ↔ log ∈ default [] logs
         ∧ (SystemLogsPanel.levelFilter s = lit "all"
            ∨ toLowerCase (SystemLogsPanel.level log)
              = toLowerCase (SystemLogsPanel.levelFilter s))
         ∧ (SystemLogsPanel.sourceFilter s = lit "all"
            ∨ SystemLogsPanel.source log = SystemLogsPanel.sourceFilter s)
         ∧ (SystemLogsPanel.searchTerm s = []
            ∨ ∃ a b, toLowerCase (SystemLogsPanel.message log)
                     = a ++ toLowerCase (SystemLogsPanel.searchTerm s) ++ b))
  ∧ (SystemLogsPanel.levelFilter s = lit "all" →
     SystemLogsPanel.sourceFilter s = lit "all" →
     SystemLogsPanel.searchTerm s = [] →
     shown = default [] logs).
Proof.
  intros shown. subst shown. destruct logs as [l|]; simpl.
  - split; [apply sublist_filter|].
    split; [apply length_filter|].
    split.
    + intros log. rewrite list_elem_of_filter, keeps_spec. tauto.
    + intros Hl Hs Ht. induction l as [|log l IH]; [done|].
      rewrite filter_cons_True; [by f_equal|].
      apply keeps_spec. auto.
  - split; [done|]. split; [done|]. split; [|done].
    intros log. split.
    + by intros ?%elem_of_nil.
    + by intros [?%elem_of_nil _].
Qed.

(** X12.  The level select and the schema agree although one spells the
    levels in lower case and the other in upper case: for an entry that
    [logEntrySchema] accepts, exactly one option of the level select shows
    it, namely its level in lower case. *)
Theorem level_options_partition (toLowerCase : jsstring → jsstring)
    (log : SystemLogsPanel.LogEntry) :
  (∀ s, is_ascii s → toLowerCase s = ascii_lower <$> s) →
  success (logEntrySchema (Some (SystemLogsPanel.LogEntry_json log))) = true →
  filter (λ option,
            SystemLogsPanel.keeps toLowerCase
              {| SystemLogsPanel.levelFilter := option;
                 SystemLogsPanel.sourceFilter := lit "all";
                 SystemLogsPanel.searchTerm := [];
                 SystemLogsPanel.autoRefresh := true |} log = true)
         SystemLogsPanel.level_options
  = [ascii_lower <$> SystemLogsPanel.level log].
Proof.
  intros Hlower Hvalid.
  assert (Hlevel : SystemLogsPanel.level log
                   ∈ [lit "ERROR"; lit "WARN"; lit "INFO"; lit "DEBUG"]).
  { unfold logEntrySchema, SystemLogsPanel.LogEntry_json in Hvalid.
    eapply (z_object_field _ _ _ (lit "level")) in Hvalid;
      [|done|rewrite !elem_of_cons; auto].
    change (success (z_enum [lit "ERROR"; lit "WARN"; lit "INFO"; lit "DEBUG"]
                       (Some (JStr (SystemLogsPanel.level log)))) = true) in Hvalid.
    simpl in Hvalid. by case_bool_decide. }
  assert (Ha : ∀ s, s ∈ ["ERROR"; "WARN"; "INFO"; "DEBUG";
                         "error"; "warn"; "info"; "debug"]%string →
               toLowerCase (lit s) = ascii_lower <$> lit s).
  { intros s Hs. apply Hlower. rewrite !elem_of_cons, elem_of_nil in Hs.
    repeat (destruct Hs as [->|Hs]; [by repeat constructor|]). done. }
  pose proof (Ha "ERROR"%string ltac:(rewrite !elem_of_cons; auto 10)) as H1.
  pose proof (Ha "WARN"%string ltac:(rewrite !elem_of_cons; auto 10)) as H2.
  pose proof (Ha "INFO"%string ltac:(rewrite !elem_of_cons; auto 10)) as H3.
  pose proof (Ha "DEBUG"%string ltac:(rewrite !elem_of_cons; auto 10)) as H4.
  pose proof (Ha "error"%string ltac:(rewrite !elem_of_cons; auto 10)) as H5.
  pose proof (Ha "warn"%string ltac:(rewrite !elem_of_cons; auto 10)) as H6.
  pose proof (Ha "info"%string ltac:(rewrite !elem_of_cons; auto 10)) as H7.
  pose proof (Ha "debug"%string ltac:(rewrite !elem_of_cons; auto 10)) as H8.
  clear Ha Hlower Hvalid.
  vm_compute in H1, H2, H3, H4, H5, H6, H7, H8.
  unfold SystemLogsPanel.keeps.
  rewrite !elem_of_cons, elem_of_nil in Hlevel.
  destruct Hlevel as [->|[->|[->|[->|[]]]]];
    vm_compute; rewrite ?H1, ?H2, ?H3, ?H4, ?H5, ?H6, ?H7, ?H8;
    vm_compute; reflexivity.
Qed.

Lemma level_options_partition_witness :
  filter (λ option,
            SystemLogsPanel.keeps (fmap ascii_lower)
              {| SystemLogsPanel.levelFilter := option;
                 SystemLogsPanel.sourceFilter := lit "all";
                 SystemLogsPanel.searchTerm := [];
                 SystemLogsPanel.autoRefresh := true |}
              {| SystemLogsPanel.timestamp := lit "12:00:01";
                 SystemLogsPanel.level := lit "WARN";
                 SystemLogsPanel.source := lit "openai";
                 SystemLogsPanel.message := lit "rate limit near" |} = true)
         SystemLogsPanel.level_options
  = [ascii_lower <$> lit "WARN"].
Proof.
  apply (level_options_partition (fmap ascii_lower)
           {| SystemLogsPanel.timestamp := lit "12:00:01";
              SystemLogsPanel.level := lit "WARN";
              SystemLogsPanel.source := lit "openai";
              SystemLogsPanel.message := lit "rate limit near" |}).
  - intros s _. reflexivity.
  - vm_compute. reflexivity.
Defined.

(** ** Adding a data source *)

Section AddingSources.
Import SchemaDataPanel.

(** While an add is pending, nothing the user does changes the pending
    call or the number of invalidations. *)
Lemma pending_user_events (es : list event) (s : panel) (c : call) :
  adding s = Some c → Forall (λ e, is_user e = true) es →
  adding (run s es) = Some c ∧ invalidations (run s es) = invalidations s.
Proof.
  revert s. induction es as [|e es IH]; intros s Hc Hes; [done|].
  apply Forall_cons in Hes as [He Hes]. simpl.
  assert (Hstep : adding (step s e) = Some c
                  ∧ invalidations (step s e) = invalidations s).
  { destruct e; try done. simpl. unfold isPending. by rewrite Hc. }
  destruct Hstep as [Hc' Hi'].
  destruct (IH (step s e) Hc' Hes) as [? ?]. split; [done|congruence].
Qed.

End AddingSources.

(** X13.  While an add is pending, typing into the dialog, opening or
    closing it, or clicking the button again neither cancels nor repeats
    the request.  When the request succeeds, the form is reset and the
    dialog closed, so whatever was typed in the meantime is discarded, and
    the statistics are invalidated once; when it fails, the form and the
    dialog stay as the user left them and the error is shown. *)
Theorem pending_add_outcome (s : SchemaDataPanel.panel) (c : call)
    (es : list SchemaDataPanel.event) (result : fetch_result) :
  let s1 := SchemaDataPanel.run s es in
  let s2 := SchemaDataPanel.step s1 (SchemaDataPanel.Fetched result) in
  SchemaDataPanel.adding s = Some c →
  Forall (λ e, SchemaDataPanel.is_user e = true) es →
  SchemaDataPanel.adding s1 = Some c
  ∧ SchemaDataPanel.adding s2 = None
  ∧ match resume c result with
    | Resolved _ =>
        SchemaDataPanel.newSource s2 = SchemaDataPanel.initial
        ∧ SchemaDataPanel.showAddDialog s2 = false
        ∧ SchemaDataPanel.invalidations s2 = S (SchemaDataPanel.invalidations s)
        ∧ SchemaDataPanel.notices s2
          = SchemaDataPanel.notices s1 ++ [SchemaDataPanel.DataSourceAdded]
    | Rejected e =>
        SchemaDataPanel.newSource s2 = SchemaDataPanel.newSource s1
        ∧ SchemaDataPanel.showAddDialog s2 = SchemaDataPanel.showAddDialog s1
        ∧ SchemaDataPanel.invalidations s2 = SchemaDataPanel.invalidations s
        ∧ SchemaDataPanel.notices s2
          = SchemaDataPanel.notices s1 ++ [SchemaDataPanel.FailedToAddSource e]
    end.
Proof.
  intros s1 s2 Hc Hes.
  destruct (pending_user_events es s c Hc Hes) as [Hc1 Hi1].
  fold s1 in Hc1, Hi1. split; [done|].
  unfold s2. simpl. rewrite Hc1.
  destruct (resume c result) as [v|e]; simpl; rewrite ?Hi1; done.
Qed.

Lemma pending_add_outcome_witness :
  let filled :=
    {| SchemaDataPanel.name := lit "Example Site";
       SchemaDataPanel.url := lit "https://example.com/sitemap.xml";
       SchemaDataPanel.type := lit "schema_org";
       SchemaDataPanel.description := [] |} in
  let s :=
    SchemaDataPanel.run SchemaDataPanel.start
      [ SchemaDataPanel.OpenChange true;
        SchemaDataPanel.SetName (lit "Example Site");
        SchemaDataPanel.SetUrl (lit "https://example.com/sitemap.xml");
        SchemaDataPanel.ClickAdd ] in
  let es := [SchemaDataPanel.SetDescription (lit "typed too late");
             SchemaDataPanel.ClickAdd] in
  let result :=
    FetchResolves {| status := 200; statusText := lit "OK";
                     json_body := Some (JObj {[ lit "message" := JStr (lit "added") ]}) |} in
  let c := api.addDataSource (SchemaDataPanel.to_json filled) in
  let s1 := SchemaDataPanel.run s es in
  let s2 := SchemaDataPanel.step s1 (SchemaDataPanel.Fetched result) in
  SchemaDataPanel.adding s1 = Some c
  ∧ SchemaDataPanel.adding s2 = None
  ∧ match resume c result with
    | Resolved _ =>
        SchemaDataPanel.newSource s2 = SchemaDataPanel.initial
        ∧ SchemaDataPanel.showAddDialog s2 = false
        ∧ SchemaDataPanel.invalidations s2 = S (SchemaDataPanel.invalidations s)
        ∧ SchemaDataPanel.notices s2
          = SchemaDataPanel.notices s1 ++ [SchemaDataPanel.DataSourceAdded]
    | Rejected e =>
        SchemaDataPanel.newSource s2 = SchemaDataPanel.newSource s1
        ∧ SchemaDataPanel.showAddDialog s2 = SchemaDataPanel.showAddDialog s1
        ∧ SchemaDataPanel.invalidations s2 = SchemaDataPanel.invalidations s
        ∧ SchemaDataPanel.notices s2
          = SchemaDataPanel.notices s1 ++ [SchemaDataPanel.FailedToAddSource e]
    end.
Proof.
  intros filled s es result c s1 s2.
  apply (pending_add_outcome s c es result).
  - reflexivity.
  - repeat constructor.
Defined.

(** ** Editing the configuration *)

Section Editing.
Import ConfigurationPanel.

Lemma key_inj (sec sec' : section) : key sec = key sec' → sec = sec'.
Proof. by destruct sec, sec'. Qed.

End Editing.

(** X14.  With a configuration object loaded, editing a field of a
    section and then saving that section sends the section with the new
    value under that field and its other fields as they were; saving any
    other section sends what it would have sent without the edit. *)
Theorem edit_then_save (sec sec' : ConfigurationPanel.section) (field : jsstring)
    (value : json) (s : ConfigurationPanel.state) (c o : jsobject) :
  ConfigurationPanel.config s = JObj c →
  c !! ConfigurationPanel.key sec = Some (JObj o) →
  let s' := ConfigurationPanel.edit sec field value s in
  ConfigurationPanel.handleSave sec s'
  = [api.updateConfig
       (JObj {[ ConfigurationPanel.key sec := JObj (<[ field := value ]> o) ]})]
  ∧ (sec' ≠ sec →
     ConfigurationPanel.handleSave sec' s' = ConfigurationPanel.handleSave sec' s).
Proof.
  intros Hc Ho s'.
  assert (Hs' : ConfigurationPanel.config s'
                = JObj (<[ ConfigurationPanel.key sec := JObj (<[ field := value ]> o) ]> c)).
  { unfold s', ConfigurationPanel.edit. rewrite Hc. simpl. by rewrite Ho. }
  unfold ConfigurationPanel.handleSave. rewrite Hs', Hc. simpl. split.
  - by rewrite lookup_insert_eq.
  - intros Hne. rewrite lookup_insert_ne; [done|].
    intros Hk. by apply key_inj in Hk.
Qed.

Lemma edit_then_save_witness :
  let c : jsobject :=
    {[ lit "openai" := JObj {[ lit "model" := JStr (lit "gpt-4");
                               lit "temperature" := JNum (Fin (7 # 10)) ]};
       lit "nlweb" := JObj {[ lit "server_port" := JNum (int 5000) ]} ]} in
  let s := {| ConfigurationPanel.config := JObj c |} in
  let s' := ConfigurationPanel.edit ConfigurationPanel.openai (lit "model")
              (JStr (lit "gpt-4-turbo")) s in
  ConfigurationPanel.handleSave ConfigurationPanel.openai s'
  = [api.updateConfig
       (JObj {[ ConfigurationPanel.key ConfigurationPanel.openai :=
                  JObj (<[ lit "model" := JStr (lit "gpt-4-turbo") ]>
                          {[ lit "model" := JStr (lit "gpt-4");
                             lit "temperature" := JNum (Fin (7 # 10)) ]}) ]})]
  ∧ (ConfigurationPanel.nlweb ≠ ConfigurationPanel.openai →
     ConfigurationPanel.handleSave ConfigurationPanel.nlweb s'
     = ConfigurationPanel.handleSave ConfigurationPanel.nlweb s).
Proof.
  intros c s s'.
  apply (edit_then_save ConfigurationPanel.openai ConfigurationPanel.nlweb
           (lit "model") (JStr (lit "gpt-4-turbo")) s c); reflexivity.
Defined.

(** ** The service indicators *)

(** X15.  An indicator of the sidebar is online exactly when the health
    data is an object whose [services] is an object that has the string
    ["online"] under the service's name; while the health data is missing,
    or without [services], every indicator is offline. *)
Theorem indicator_online_iff (healthData : option json) (svc : DemoAgent.service) :
  DemoAgent.getStatusIndicator healthData svc = DemoAgent.status_online
  ↔ ∃ m services : jsobject,
      healthData = Some (JObj m)
      ∧ m !! lit "services" = Some (JObj services)
      ∧ services !! DemoAgent.service_key svc = Some (JStr (lit "online")).
Proof.
  unfold DemoAgent.getStatusIndicator. split.
  - destruct healthData as [[| | | | |m]|]; simpl; try done.
    destruct (m !! lit "services") as [[|b|n|t|l|sv]|] eqn:E; simpl; try done.
    1-3: match goal with
         | |- (if ?c then _ else _) = _ → _ => by destruct c
         end.
    destruct (sv !! DemoAgent.service_key svc) as [[| | |status| |]|] eqn:E';
        try done.
      case_bool_decide; [|done]. subst. intros _. by exists m, sv.
  - intros (m & sv & -> & Hm & Hsv). simpl. rewrite Hm. simpl. rewrite Hsv.
    by rewrite bool_decide_eq_true_2.
Qed.

(** ** What the query interface sends and how a query ends *)

Section Trimmed.

Lemma trimStart_idem (s : jsstring) : trimStart (trimStart s) = trimStart s.
Proof.
  induction s as [|c s IH]; [done|]. simpl.
  destruct (is_white_space c) eqn:E; [done|]. simpl. by rewrite E.
Qed.

Lemma trimStart_split (s : jsstring) : ∃ ws, s = ws ++ trimStart s.
Proof.
  induction s as [|c s [ws IH]]; [by exists []|]. simpl.
  destruct (is_white_space c).
  - exists (c :: ws). simpl. by f_equal.
  - by exists [].
Qed.

Lemma trimStart_fixed (s : jsstring) :
  (∀ c t, s = c :: t → is_white_space c = false) → trimStart s = s.
Proof.
  destruct s as [|c s]; [done|]. intros H. simpl. by rewrite (H c s).
Qed.

(** What [trim] returns has no white space left at either end. *)
Lemma trim_trimmed (s : jsstring) : trim (trim s) = trim s.
Proof.
  unfold trim at 2 3. unfold trimEnd.
  set (y := trimStart s). set (z := trimStart (rev y)).
  assert (Hx : trimStart (rev z) = rev z).
  { apply trimStart_fixed. intros c t Hct.
    destruct (trimStart_split (rev y)) as [ws Hws]. fold z in Hws.
    apply (f_equal (@rev N)) in Hws.
    rewrite rev_involutive, rev_app_distr, Hct in Hws.
    by apply (trimStart_head s (t ++ rev ws) c). }
  unfold trim, trimEnd. rewrite Hx, rev_involutive.
  unfold z. by rewrite trimStart_idem.
Qed.

End Trimmed.

Section Sent.
Import QueryInterface.

(** What a well-formed submission looks like. *)
Lemma inflight_settle (id : nat) (result : fetch_result) (s : state) (x : nat * json) :
  x ∈ inflight (settle id result s) → x ∈ inflight s.
Proof.
  unfold settle. destruct (list_find _ _) as [[i [id' request]]|]; [|done].
  assert (Hf : ∀ st s0, inflight s0 = inflight s →
               x ∈ inflight (finish id st s0) → x ∈ inflight s).
  { intros st s0 H0. unfold finish. simpl. rewrite H0.
    by intros [_ ?]%list_elem_of_filter. }
  destruct (resume (api.ask request) result) as [data|e].
  - destruct (onSuccess_results data s) as (_ & _ & Hin).
    destruct (onSuccess data s) as [s1 [e|]]; simpl in Hin; by apply Hf.
  - by apply Hf.
Qed.

Lemma inflight_step (s : state) (e : event) (x : nat * json) :
  x ∈ inflight (step s e) →
  x ∈ inflight s
  ∨ ∃ q, x.2 = QueryRequest_json
                 {| qr_query := q; qr_mode := Some search; qr_prev := None |}
         ∧ q ≠ [] ∧ trim q = q.
Proof.
  destruct e as [text| |id result]; simpl.
  - auto.
  - destruct (isPending s); [auto|]. rewrite handleSubmit_cases.
    destruct (forallb is_white_space (query s)) eqn:E; [auto|].
    unfold mutate. simpl. intros [Hx| ->%list_elem_of_singleton]%elem_of_app;
      [auto|right].
    exists (trim (query s)). split; [done|]. split; [|apply trim_trimmed].
    intros Ht. apply trim_nil_iff in Ht. congruence.
  - intros Hx. left. by eapply inflight_settle.
Qed.

End Sent.

(** X16.  Whatever the user does, every request of the query interface
    that is in flight carries a query that is not empty and has no white
    space at either end, with mode [search] and nothing else, and so
    passes [queryRequestSchema]. *)
Theorem requests_in_flight_valid (es : list QueryInterface.event)
    (id : nat) (request : json) :
  (id, request) ∈ QueryInterface.inflight
                    (QueryInterface.run QueryInterface.initial es) →
  ∃ q, request = QueryRequest_json
                   {| qr_query := q; qr_mode := Some search; qr_prev := None |}
       ∧ q ≠ [] ∧ trim q = q
       ∧ success (queryRequestSchema (Some request)) = true.
Proof.
  intros Hin.
  cut (∃ q, request = QueryRequest_json
                        {| qr_query := q; qr_mode := Some search; qr_prev := None |}
            ∧ q ≠ [] ∧ trim q = q).
  { intros (q & -> & Hq & Ht). exists q. repeat split; try done.
    rewrite queryRequestSchema_typed. simpl. by apply negb_true_iff, is_empty_false. }
  revert Hin. unfold QueryInterface.run.
  assert (H0 : ∀ x, x ∈ QueryInterface.inflight QueryInterface.initial →
               ∃ q, x.2 = QueryRequest_json
                            {| qr_query := q; qr_mode := Some search; qr_prev := None |}
                    ∧ q ≠ [] ∧ trim q = q)
    by (by intros x ?%elem_of_nil).
  revert H0. generalize QueryInterface.initial.
  induction es as [|e es IH]; intros s Hs Hin; simpl in Hin.
  - by apply (Hs (id, request)).
  - apply (IH (QueryInterface.step s e)); [|done].
    intros x Hx. apply inflight_step in Hx as [Hx|Hx]; [by apply Hs | done].
Qed.

Lemma requests_in_flight_valid_witness :
  ∃ q, QueryRequest_json
         {| qr_query := lit "hotels"; qr_mode := Some search; qr_prev := None |}
       = QueryRequest_json
           {| qr_query := q; qr_mode := Some search; qr_prev := None |}
       ∧ q ≠ [] ∧ trim q = q
       ∧ success (queryRequestSchema
                    (Some (QueryRequest_json
                             {| qr_query := lit "hotels"; qr_mode := Some search;
                                qr_prev := None |}))) = true.
Proof.
  apply (requests_in_flight_valid
           [QueryInterface.Input (lit "  hotels "); QueryInterface.Click] 0%nat).
  vm_compute. apply list_elem_of_here.
Defined.

(** X17.  How a query ends when its response is ok.  The body is stored
    as the results whatever its shape.  The description of the toast is
    then built from the [numberOfItems] and [processingTime] of the body:
    when the body is not [null] and both convert to a string, as every
    number and a missing property do, the mutation succeeds and the toast
    reports them; when one of them does not convert, or the body is
    [null], building the description throws, and the mutation ends as
    failed with that TypeError, the body already stored. *)
Theorem ok_response_outcome (s : QueryInterface.state) (id : nat)
    (request data : json) (result : fetch_result) :
  let s' := QueryInterface.step s (QueryInterface.Fetched id result) in
  QueryInterface.inflight s = [(id, request)] →
  QueryInterface.current s = Some id →
  resume (api.ask request) result = Resolved data →
  QueryInterface.results s' = data
  ∧ QueryInterface.inflight s' = []
  ∧ match get_prop data (lit "numberOfItems"), get_prop data (lit "processingTime") with
    | Gives n, Gives t =>
        data ≠ JNull
        ∧ if arg_converts n && arg_converts t
          then QueryInterface.status s' = QueryInterface.success
               ∧ QueryInterface.toasts s'
                 = QueryInterface.toasts s ++ [QueryInterface.QuerySuccessful n t]
          else QueryInterface.status s' = QueryInterface.error
               ∧ QueryInterface.toasts s'
                 = QueryInterface.toasts s ++ [QueryInterface.QueryFailed TypeError]
    | _, _ =>
        data = JNull
        ∧ QueryInterface.status s' = QueryInterface.error
        ∧ QueryInterface.toasts s'
          = QueryInterface.toasts s ++ [QueryInterface.QueryFailed TypeError]
        ∧ QueryInterface.displayed s' = None
    end.
Proof.
  intros s' Hin Hc Hr. unfold s'. simpl.
  rewrite (settle_found s id request result Hin), Hr.
  unfold QueryInterface.onSuccess.
  destruct data; simpl;
    try destruct (arg_converts _ && arg_converts _); simpl;
    rewrite Hin, Hc, bool_decide_eq_true_2 by done;
    rewrite filter_cons_False, filter_nil by (simpl; intros H; by apply H);
    done.
Qed.

Lemma ok_response_outcome_witness :
  let s :=
    QueryInterface.run QueryInterface.initial
      [QueryInterface.Input (lit "hotels"); QueryInterface.Click] in
  let data :=
    JObj {[ lit "numberOfItems" := JObj {[ lit "toString" := JNum (int 0) ]};
            lit "processingTime" := JNum (Fin (1 # 4)) ]} in
  let result :=
    FetchResolves {| status := 200; statusText := lit "OK"; json_body := Some data |} in
  let s' := QueryInterface.step s (QueryInterface.Fetched 0 result) in
  QueryInterface.results s' = data
  ∧ QueryInterface.inflight s' = []
  ∧ match get_prop data (lit "numberOfItems"), get_prop data (lit "processingTime") with
    | Gives n, Gives t =>
        data ≠ JNull
        ∧ if arg_converts n && arg_converts t
          then QueryInterface.status s' = QueryInterface.success
               ∧ QueryInterface.toasts s'
                 = QueryInterface.toasts s ++ [QueryInterface.QuerySuccessful n t]
          else QueryInterface.status s' = QueryInterface.error
               ∧ QueryInterface.toasts s'
                 = QueryInterface.toasts s ++ [QueryInterface.QueryFailed TypeError]
    | _, _ =>
        data = JNull
        ∧ QueryInterface.status s' = QueryInterface.error
        ∧ QueryInterface.toasts s'
          = QueryInterface.toasts s ++ [QueryInterface.QueryFailed TypeError]
        ∧ QueryInterface.displayed s' = None
    end.
Proof.
  intros s data result s'.
  apply (ok_response_outcome s 0%nat
           (QueryRequest_json
              {| qr_query := lit "hotels"; qr_mode := Some search; qr_prev := None |})
           data result); reflexivity.
Defined.
